(* ===== verification/_CoqProject ===== *)
-Q . S2P
Prelude.v
IndexMap.v
Value.v
MarkedYaml.v
Pointer.v
Roundtrip.v
Scenario.v
Parse.v
Telemetry.v
Canned.v
