(* ===== verification/Prelude.v ===== *)
(** * Verification of the router's marked-YAML configuration loader

    The repository excerpt has three parts.  The core is
    [src/apollo-router/src/configuration/yaml.rs]: a YAML loader that keeps
    source positions.  yaml_rust's parser streams events (scalars, starts
    and ends of sequences and mappings, aliases), each with a [Marker];
    [MarkedYaml], a [MarkedEventReceiver], rebuilds the document tree from
    them, resolving aliases through a table of anchored values; afterwards
    [get_element] follows a JSON pointer produced by schema validation to
    the node it names, whose [end_marker] is shown in the error message.
    The second part, [plugins/telemetry/apollo.rs], is the telemetry
    configuration record and its defaults; the third,
    [plugin/utils/test/mock/canned.rs], is canned subgraph test data.

    ** Files, in dependency order
    - [Prelude] (this file): [outcome] (a value or a panic) and its monad,
      the [E + A] monad of [Result], the tactic [outcome_simp], the hint
      databases [yaml] and [yaml_rw], [all_list] (a [Forall] that nested
      fixpoints over trees may call) and list lemmas.
    - [IndexMap]: [indexmap::IndexMap] as an association list under any
      decidable equivalence on keys ([new], [get], [insert] keeping the
      stored key and its place or appending, [last]), with its laws, its
      [Proper] instance, and the abstract ordered map it refines ([spec]:
      keys in order of first insertion and a lookup; [refines]; proved
      operation by operation for [new] and [insert]), [extend] (inserting
      pairs in order) and [from_iter], the [collect] of pairs into a map.
    - [Value]: [Marker], [Label] whose [Equiv] compares names only (the
      [derivative] ignore on [marker]), [Label_from], the tree [Value.t]
      ([String], [Sequence], [Mapping]) with a nested induction principle,
      and [Value::end_marker]; [max_index] and [in_text_order], a tree
      laid out in its text left to right.
    - [MarkedYaml]: yaml_rust's [Event]; the state [MarkedYaml] (anchors as
      a [gmap nat Value.t], the pending [current_label], the
      [object_stack] listed from its top, the [root]); [attach] (the two
      insertion arms the three helpers share), [end_container],
      [add_value], [add_alias_value], [on_event], and [load], yaml_rust's
      [Parser::load] feeding the events in order.  A handler returns the
      new state and the [tracing::warn!] messages it logs; the [expect] of
      [end_container] is a [Panicked] outcome.  [reachable] is the step
      relation's reachability from [MarkedYaml::default()].
    - [Pointer]: [PathChunk], [MarkedYaml::root], [get_element] as the
      source's loop, and the reference descent [lookup_path].
    - [Roundtrip]: [emit_with id], the event stream of a tree whose root is
      anchored with [id] (children unanchored), the trees the builder
      produces ([canon]), and the round trips, without and with an alias.
    - [Scenario]: evaluations of the model on fixed event streams, not
      properties: the spec's worked example, the document of yaml.rs's
      [test] as yaml_rust streams it (each event at the marker of the token
      starting its node), and the streams behind the findings.
    - [Parse]: [parse] ([source.replace('\r', "")], the parser, the loader,
      the error mapping) against the class [EventSource], which states what
      yaml_rust promises the loader: events in order, a final scan error,
      and no end event without its start.
    - [Telemetry]: [Config], its default functions, [Default::default()],
      and the deserializer serde derives ([deny_unknown_fields], defaults
      read from the environment, header names parsed and lower-cased);
      the JSON schema schemars derives from the attributes
      ([Config_schema]: nullable strings, the documented defaults, no
      other property) and the validator's check of a block against it
      ([schema_validate]); [valid_header_name], the invariant of
      [HeaderName].
    - [Canned]: [serde_json::Value] with decidable equality, the three
      fixtures of canned.rs as literals, [MockSubgraph::new] (their pairs
      collected into a map, [IndexMap.from_iter] under equality) and the
      mock's lookup (static data: checked, no property claimed).

    ** Theorems
    - Round trip (C1, C2, C19): loading the events of a sequence or
      mapping document rebuilds the tree exactly, markers and key order
      included, with no warning; [get_element] then finds the node a
      pointer names, and [parse] returns that loader.
    - Invariant (C3): in every reachable state the frames hold containers
      (a mapping carrying its frame's label) and every mapping has unique
      key names; proved by rule induction on [reachable].
    - Errors and safety (C4, C5, C17, C18): [on_event] panics exactly on an
      end event with an empty stack; [load] panics exactly on an
      unbalanced stream; so [parse] never panics; a scan error becomes
      [InvalidConfiguration "could not parse yaml"].
    - Handler behaviour (C6, C7, C8): aliases copy the anchored value
      with its markers; unresolved aliases change nothing, leaving the key
      pending; scalars alternate key and value in a mapping.
    - Liveness (C15): from any state, as many end events as open frames
      close them all, without panic or warning, and make a root.
    - Navigator (C9, C10, C11): the loop equals the reference descent; a
      chunk of the wrong kind gives [None]; keys are found by name only.
    - Anchors (C12, C23): in a mapping or a sequence, an alias to an
      anchored tree is rebuilt as an equal copy, keeping the anchor's
      markers.
    - Key order (C26): a loaded mapping document, a key possibly given
      twice, implements the abstract ordered map of its entries inserted
      in order: keys in first-occurrence order, each with its last value.
    - [end_marker] (C24): in a tree laid out left to right, the end marker
      is the node's greatest position, its last scalar's.
    - Departures from the spec (C13, C14, C16): an unresolved alias in a
      mapping shifts the following keys and values; a non-scalar key
      loses its entry and briefly becomes the root; a scalar document has
      no root.  The lemmas of [Scenario] evaluate these and the other
      findings on fixed documents (the alias node's end marker in the
      anchor's text, the end marker of a mapping whose last line
      re-defines a key, a text of several documents).
    - Telemetry (C20, C21, C22, C25, C27, C28): the empty block reads the
      environment and equals [Default] only when neither variable is set;
      unknown and duplicate fields are refused; an explicit value, [null]
      included, wins over the environment; every block serde accepts
      passes the schema; every deserialized header name is a valid
      [HeaderName].

    ** Choices
    No definition needs fuel: every recursion is structural (the tree by
    [Value.t_ind], event lists by [load]).  Indices and anchor ids are
    [nat]: the code never does arithmetic on them, so their width does not
    matter.  Strings are [string]; the only character-level operation,
    removing '\r', acts on one UTF-8 byte.

    ** Not modelled
    yaml_rust's scanner (an external library: its events are the input of
    [load], and [EventSource] states its promise), the jsonschema
    validator (its pointers, and its check of the telemetry block against
    [Config_schema]; not its schema language in general), [Url] parsing (a
    URL is its text, so the schema's [uri] format is not checked),
    [tracing] output beyond the message, [MockSubgraph] beyond its map and
    lookup, the router's query planner, [serde_json::from_value] into [Request] and
    [Response] (kept as the JSON), the insta snapshot of yaml.rs's test (not in the repository:
    a lemma of [Scenario] states the tree instead), and the other variants of
    [ConfigurationError].  The code imports its other types (yaml_rust's
    [Marker] and [Event], jsonschema's [PathChunk], [HeaderName], [Url]);
    they are modelled from their documented behaviour, not from source
    lines.  Nothing runs concurrently and no integer is computed with, so
    there is no interleaving or overflow to state. *)

From stdpp Require Export base gmap strings list.

Declare Scope yaml_scope.
Delimit Scope yaml_scope with yaml.
Open Scope yaml_scope.

Create HintDb yaml.
Create Rewrite HintDb yaml_rw.

(** ** Outcomes of code that may panic

    A Rust function either returns a value or panics (an [expect] on
    [None], an index out of range).  [outcome A] keeps the two apart, so a
    panic is a value of the model and theorems can say when it happens. *)

Inductive outcome (A : Type) : Type :=
| Returned (a : A)
| Panicked (msg : string).
Arguments Returned {A} a.
Arguments Panicked {A} msg.

#[export] Instance outcome_ret : MRet outcome := λ A a, Returned a.
#[export] Instance outcome_bind : MBind outcome :=
  λ A B (k : A → outcome B) (o : outcome A),
    match o with
    | Returned a => k a
    | Panicked msg => Panicked msg
    end.

(** [Result<A, E>] as [E + A]: its [?] operator is this bind. *)
#[export] Instance sum_ret {E} : MRet (sum E) := λ A a, inr a.
#[export] Instance sum_bind {E} : MBind (sum E) :=
  λ A B (k : A → E + B) (r : E + A),
    match r with
    | inl e => inl e
    | inr a => k a
    end.

(** [expect msg o] is Rust's [Option::expect]. *)
Definition expect {A} (msg : string) (o : option A) : outcome A :=
  match o with
  | Some a => Returned a
  | None => Panicked msg
  end.

Lemma outcome_bind_Returned {A B} (a : A) (k : A → outcome B) :
  (Returned a ≫= k) = k a.
Proof. reflexivity. Qed.

Lemma outcome_bind_Panicked {A B} msg (k : A → outcome B) :
  (Panicked msg ≫= k) = Panicked msg.
Proof. reflexivity. Qed.

Lemma outcome_bind_assoc {A B C} (o : outcome A) (f : A → outcome B)
  (g : B → outcome C) :
  ((o ≫= f) ≫= g) = (o ≫= (λ a, f a ≫= g)).
Proof. by destruct o. Qed.

Lemma outcome_bind_Returned_inv {A B} (o : outcome A) (k : A → outcome B) b :
  (o ≫= k) = Returned b → ∃ a, o = Returned a ∧ k a = Returned b.
Proof. destruct o; simpl; [eauto | discriminate]. Qed.

#[export] Hint Rewrite @outcome_bind_Returned @outcome_bind_Panicked
  @outcome_bind_assoc : yaml_rw.

(** ** Tactics *)

(** [outcome_simp]: normalise binds of known outcomes in the goal and the
    hypotheses, and split [Returned] equalities. *)
Ltac outcome_simp :=
  repeat match goal with
  | H : context [@mret outcome _ _ _] |- _ => unfold mret, outcome_ret in H
  | |- context [@mret outcome _ _ _] => unfold mret, outcome_ret
  | H : Returned _ = Returned _ |- _ => injection H as H
  | H : Returned _ = Panicked _ |- _ => discriminate H
  | H : Panicked _ = Returned _ |- _ => discriminate H
  | H : (_ ≫= _) = Returned _ |- _ =>
      apply outcome_bind_Returned_inv in H as (? & ? & ?)
  | |- context [Returned _ ≫= _] => rewrite outcome_bind_Returned
  end.

(** ** Generic list lemmas *)

Lemma last_cons_cons {A} (x y : A) (l : list A) :
  last (x :: y :: l) = last (y :: l).
Proof. reflexivity. Qed.

Lemma Forall_snoc {A} (P : A → Prop) (l : list A) (x : A) :
  Forall P (l ++ [x]) ↔ Forall P l ∧ P x.
Proof. rewrite Forall_app, Forall_singleton. done. Qed.

(** [all_list P l]: [P] holds of every element.  Unlike [Forall] it is a
    function, so a fixpoint over a tree nested in lists may use it on the
    children and stay structural. *)
Fixpoint all_list {A} (P : A → Prop) (l : list A) : Prop :=
  match l with
  | [] => True
  | x :: l' => P x ∧ all_list P l'
  end.

Lemma all_list_Forall {A} (P : A → Prop) (l : list A) : all_list P l ↔ Forall P l.
Proof. induction l as [|x l IH]; simpl; [split; auto|]. by rewrite Forall_cons, IH. Qed.

(** [chain R l]: every element is related to the next one, the local
    form of a sorted list ([LocallySorted]), as a function. *)
Fixpoint chain {A} (R : A → A → Prop) (l : list A) : Prop :=
  match l with
  | x :: (y :: _) as l' => R x y ∧ chain R l'
  | _ => True
  end.

Lemma chain_impl {A} (R R' : A → A → Prop) (l : list A) :
  (∀ x y, R x y → R' x y) → chain R l → chain R' l.
Proof.
  intros HR. induction l as [|x [|y l] IH]; simpl; try done.
  intros [Hxy Hc]. split; [by apply HR|by apply IH].
Qed.

Lemma foldr_max_app (l1 l2 : list nat) :
  foldr max 0 (l1 ++ l2) = max (foldr max 0 l1) (foldr max 0 l2).
Proof. induction l1 as [|x l1 IH]; simpl; [done|]. rewrite IH. lia. Qed.

(** The maximum of a list whose images never decrease is the image of its
    last element. *)
Lemma foldr_max_chain_last {A} (h : A → nat) (l : list A) (z : A) :
  chain (λ a b, h a ≤ h b) l → last l = Some z → foldr max 0 (h <$> l) = h z.
Proof.
  induction l as [|x [|y l] IH]; [discriminate| |].
  - intros _ [= ->]. simpl. lia.
  - intros [Hxy Hc] Hl. rewrite last_cons_cons in Hl.
    assert (h y ≤ foldr max 0 (h <$> y :: l)) as Hy by (rewrite fmap_cons; cbn [foldr]; lia).
    rewrite IH in Hy by done.
    rewrite fmap_cons. cbn [foldr]. rewrite IH by done. lia.
Qed.

#[export] Hint Resolve Forall_nil_2 : yaml.
