(* ===== verification/IndexMap.v ===== *)
(** * IndexMap: the insertion-ordered map of a YAML mapping

    [indexmap::IndexMap<K, V>] keeps its entries in insertion order; its
    keys are compared with the key type's [Eq] (for the builder's [Label]
    that is an equivalence coarser than equality: the name only).
    [IndexMap.insert] of a key already present keeps the stored key and its
    place and replaces the value; of a new key, appends the entry.  The
    map is an association list, since order matters; the key comparison
    is any decidable equivalence [≡].  [spec] is the abstract ordered map
    (keys in order of first insertion, a lookup) that [refines] relates it
    to. *)

From S2P Require Import Prelude.

Module IndexMap.
Section IndexMap.
Context {K V : Type} `{Equiv K} `{!Equivalence (≡@{K})}
  `{!RelDecision (≡@{K})}.

Definition t : Type := list (K * V).

(** [IndexMap::get]: the value of the entry whose key is equivalent to
    [k]. *)
Fixpoint get (k : K) (m : t) : option V :=
  match m with
  | [] => None
  | (k', v) :: m' => if decide (k' ≡ k) then Some v else get k m'
  end.

(** [IndexMap::insert]: replace the value in place, or append. *)
Fixpoint insert (k : K) (v : V) (m : t) : t :=
  match m with
  | [] => [(k, v)]
  | (k', v') :: m' =>
      if decide (k' ≡ k) then (k', v) :: m' else (k', v') :: insert k v m'
  end.

(** [IndexMap::new]. *)
Definition new : t := [].

(** [IndexMap::last]: the last entry of the map's order. *)
Definition last (m : t) : option (K * V) := stdpp.list_basics.list.last m.

(** Inserting pairs in order ([Extend::extend]), a later pair of an
    equivalent key replacing the earlier value in its place: what the
    builder does to a mapping, one key and value at a time. *)
Definition extend (m : t) (l : list (K * V)) : t := foldl (λ m kv, insert kv.1 kv.2 m) m l.

(** [FromIterator::from_iter] ([collect]): extend an empty map. *)
Definition from_iter (l : list (K * V)) : t := extend new l.

(** The keys, in the map's order. *)
Definition keys (m : t) : list K := m.*1.

(** Well-formedness: no two keys of the map are equivalent. *)
Fixpoint keys_unique (m : t) : Prop :=
  match m with
  | [] => True
  | (k, _) :: m' => get k m' = None ∧ keys_unique m'
  end.

(** ** The abstract ordered map

    What [IndexMap] promises its clients: the keys in the order they were
    first inserted, and a lookup function.  [refines m a] relates the
    association list to the abstract map it implements. *)
Record spec : Type := Spec { skeys : list K; slookup : K → option V }.

Definition spec_empty : spec := Spec [] (λ _, None).

(** Inserting: a key equivalent to one present leaves the order alone,
    a new key goes last; the key now maps to the value. *)
Definition spec_insert (k : K) (v : V) (a : spec) : spec :=
  Spec (if bool_decide (Exists (λ k', k' ≡ k) (skeys a)) then skeys a else skeys a ++ [k])
       (λ k', if decide (k ≡ k') then Some v else slookup a k').

Definition refines (m : t) (a : spec) : Prop :=
  keys m = skeys a ∧ keys_unique m ∧ ∀ k, get k m = slookup a k.

(** ** Laws *)

(** Two decisions on equivalent keys agree; [equiv_cases] closes the
    contradictory combinations. *)
Lemma equiv_trans_neg (a b c : K) : a ≡ b → ¬ a ≡ c → ¬ b ≡ c.
Proof. intros Hab Hac Hbc. apply Hac. by etrans. Qed.

Ltac equiv_cases :=
  repeat case_decide; try done;
  try (exfalso; match goal with
    | H1 : ?a ≡ ?b, H2 : ?c ≡ ?b, Hn : ¬ ?a ≡ ?c |- _ =>
        apply Hn; etrans; [exact H1 | symmetry; exact H2]
    | H1 : ?a ≡ ?b, H2 : ?a ≡ ?c, Hn : ¬ ?b ≡ ?c |- _ =>
        apply Hn; etrans; [symmetry; exact H1 | exact H2]
    | H1 : ?a ≡ ?b, H2 : ?b ≡ ?c, Hn : ¬ ?a ≡ ?c |- _ =>
        apply Hn; etrans; [exact H1 | exact H2]
    end).

(** [get] looks a key up by its class: any equivalent key finds the same
    entry (the builder looks labels up with a fresh marker). *)
#[global] Instance get_proper : Proper ((≡) ==> (=) ==> (=)) get.
Proof.
  intros k1 k2 Hk m ? <-. induction m as [|[k' v] m IH]; simpl; [done|].
  rewrite IH. case_decide as H1; case_decide as H2; try done.
  - exfalso. apply H2. by etrans.
  - exfalso. apply H1. etrans; [exact H2|]. by symmetry.
Qed.

Lemma get_insert (k k' : K) (v : V) (m : t) :
  get k' (insert k v m) = if decide (k ≡ k') then Some v else get k' m.
Proof.
  induction m as [|[k0 v0] m IH]; simpl; [by equiv_cases|].
  destruct (decide (k0 ≡ k)); simpl; [|rewrite IH]; equiv_cases.
Qed.

Lemma get_insert_eq (k : K) (v : V) (m : t) : get k (insert k v m) = Some v.
Proof. rewrite get_insert. by rewrite decide_True. Qed.

Lemma get_None_keys (k : K) (m : t) :
  get k m = None ↔ Forall (λ k', ¬ k' ≡ k) (keys m).
Proof.
  induction m as [|[k' v] m IH]; [split; auto|].
  change (keys ((k', v) :: m)) with (k' :: keys m).
  rewrite Forall_cons, <- IH. simpl. case_decide; split; intros Hg.
  - discriminate.
  - by destruct Hg.
  - by split.
  - by destruct Hg.
Qed.

(** A fresh key is appended at the end. *)
Lemma insert_fresh (k : K) (v : V) (m : t) :
  get k m = None → insert k v m = m ++ [(k, v)].
Proof.
  induction m as [|[k' v'] m IH]; simpl; [done|].
  case_decide; [discriminate|]. intros Hg. by rewrite IH.
Qed.

(** A present key keeps its stored key and its place; only the value
    changes. *)
Lemma keys_insert_present (k : K) (v v0 : V) (m : t) :
  get k m = Some v0 → keys (insert k v m) = keys m.
Proof.
  unfold keys. induction m as [|[k' v'] m IH]; simpl; [discriminate|].
  case_decide; [done|]. intros Hg. simpl. f_equal. by apply IH.
Qed.

Lemma keys_insert_fresh (k : K) (v : V) (m : t) :
  get k m = None → keys (insert k v m) = keys m ++ [k].
Proof.
  intros Hg. unfold keys. by rewrite insert_fresh, fmap_app.
Qed.

Lemma keys_unique_insert (k : K) (v : V) (m : t) :
  keys_unique m → keys_unique (insert k v m).
Proof.
  induction m as [|[k' v'] m IH]; cbn [keys_unique insert]; [done|].
  intros [Hg Hu]. destruct (decide (k' ≡ k)) as [|Hn]; cbn [keys_unique]; [done|].
  split; [|by apply IH]. rewrite get_insert, decide_False; [done|].
  intros ?. by apply Hn.
Qed.

Lemma keys_unique_snoc (k : K) (v : V) (m : t) :
  keys_unique m → get k m = None → keys_unique (m ++ [(k, v)]).
Proof. intros Hu Hg. rewrite <- insert_fresh by done. by apply keys_unique_insert. Qed.

Lemma Forall_insert (P : V → Prop) (k : K) (v : V) (m : t) :
  Forall (λ e, P e.2) m → P v → Forall (λ e, P e.2) (insert k v m).
Proof.
  induction m as [|[k' v'] m IH]; simpl; intros Hm Hv; [by constructor|].
  apply Forall_cons in Hm as [Hv' Hm].
  case_decide; constructor; auto.
Qed.

(** In a map without duplicate keys, the key of an entry is absent from
    the entries before it. *)
Lemma keys_unique_app_get (l1 l2 : t) (k : K) (v : V) :
  keys_unique (l1 ++ (k, v) :: l2) → get k l1 = None.
Proof.
  induction l1 as [|[k1 v1] l1 IH]; simpl; [done|].
  intros [Hg Hu]. rewrite (IH Hu). apply get_None_keys in Hg.
  unfold keys in Hg. rewrite fmap_app, Forall_app, fmap_cons, Forall_cons in Hg.
  destruct Hg as [_ [Hk _]]. rewrite decide_False; [done|].
  intros ?. by apply Hk.
Qed.

Lemma get_Some_keys (k : K) (v : V) (m : t) :
  get k m = Some v → Exists (λ k', k' ≡ k) (keys m).
Proof.
  induction m as [|[k' v'] m IH]; simpl; [discriminate|].
  case_decide; intros Hg; [by left|right; by apply IH].
Qed.

(** The value found is the value of an entry of the map. *)
Lemma get_Some_in (k : K) (v : V) (m : t) : get k m = Some v → ∃ k', (k', v) ∈ m.
Proof.
  induction m as [|[k' v'] m IH]; simpl; [discriminate|].
  case_decide; [intros [= ->]; exists k'; by left|].
  intros (k0 & Hin)%IH. exists k0. by right.
Qed.

Lemma new_refines : refines new spec_empty.
Proof. split; [done|]. split; [done|]. done. Qed.

(** The last entry after inserting a new key is that key's. *)
Lemma last_insert_fresh (k : K) (v : V) (m : t) :
  get k m = None → last (insert k v m) = Some (k, v).
Proof. intros Hg. unfold last. by rewrite insert_fresh, last_snoc. Qed.

(** [IndexMap::insert] refines the abstract ordered map: if the list
    implements [a], the list after [insert k v] implements [spec_insert k v
    a] (keys in order of first insertion, unique, and each key's value),
    so a client may reason about the abstract map only. *)
Lemma insert_refines (k : K) (v : V) (m : t) (a : spec) :
  refines m a → refines (insert k v m) (spec_insert k v a).
Proof.
  intros (Hk & Hu & Hg). split; [|split].
  - simpl. rewrite <- Hk. destruct (get k m) as [v0|] eqn:E.
    + rewrite bool_decide_eq_true_2 by (by eapply get_Some_keys).
      by eapply keys_insert_present.
    + rewrite bool_decide_eq_false_2; [by apply keys_insert_fresh|].
      apply get_None_keys in E. intros Hex. apply Exists_exists in Hex as (k' & Hin & Hk').
      rewrite Forall_forall in E. by apply (E k').
  - by apply keys_unique_insert.
  - intros k'. simpl. by rewrite get_insert, Hg.
Qed.
(** Collecting pairs with unique keys onto a map: a key of the pairs gets
    its pair's value, any other key keeps the map's. *)
Lemma get_extend (k : K) (m : t) (l : t) :
  keys_unique l →
  get k (extend m l) = match get k l with Some v => Some v | None => get k m end.
Proof.
  unfold extend. revert m. induction l as [|[k' v'] l IH]; intros m; simpl; [done|].
  intros [Hg Hu]. rewrite IH by done. rewrite get_insert.
  destruct (decide (k' ≡ k)) as [Hk|]; [|done].
  by rewrite <- Hk, Hg.
Qed.

(** In a map without duplicate keys, looking a key up finds the value of
    exactly the entries whose key is equivalent to it. *)
Lemma get_Some_elem_of (k : K) (v : V) (m : t) :
  keys_unique m → get k m = Some v ↔ ∃ k', k' ≡ k ∧ (k', v) ∈ m.
Proof.
  induction m as [|[k' v'] m IH]; simpl; intros Hu.
  { split; [discriminate|]. intros (? & _ & Hin). by apply elem_of_nil in Hin. }
  destruct Hu as [Hg Hu]. setoid_rewrite elem_of_cons. case_decide as Hk.
  - split; [intros [= ->]; eauto|]. intros (k0 & Hk0 & [[= -> ->]|Hin]); [done|].
    exfalso. assert (get k0 m ≠ None) as Hne.
    { rewrite get_None_keys, Forall_forall. intros Hall. apply (Hall k0); [|done].
      apply list_elem_of_fmap. by exists (k0, v). }
    apply Hne. by rewrite Hk0, <- Hk.
  - rewrite IH by done. split; intros (k0 & Hk0 & Hin); exists k0; split; auto.
    destruct Hin as [[= -> ->]|]; [done|]. auto.
Qed.

(** A map collected from pairs with unique keys answers as the pairs do. *)
Lemma get_from_iter (k : K) (l : t) :
  keys_unique l → get k (from_iter l) = get k l.
Proof. intros Hu. unfold from_iter. rewrite get_extend by done. by destruct (get k l). Qed.

(** Extending with pairs whose keys are all new appends them. *)
Lemma extend_fresh (m l : t) : keys_unique (m ++ l) → extend m l = m ++ l.
Proof.
  unfold extend. revert m. induction l as [|[k v] l IH]; intros m Hu; simpl; [by rewrite app_nil_r|].
  rewrite insert_fresh by (eapply keys_unique_app_get; exact Hu).
  rewrite IH; [by rewrite <- app_assoc|]. by rewrite <- app_assoc.
Qed.

(** Extending refines inserting the pairs one by one into the abstract
    map. *)
Lemma extend_refines (m l : t) (a : spec) :
  refines m a → refines (extend m l) (foldl (λ a kv, spec_insert kv.1 kv.2 a) a l).
Proof.
  unfold extend. revert m a. induction l as [|[k v] l IH]; intros m a Hr; simpl; [done|].
  apply IH. by apply insert_refines.
Qed.
End IndexMap.
End IndexMap.

#[export] Hint Resolve IndexMap.keys_unique_insert IndexMap.get_insert_eq : yaml.
