(* ===== verification/Value.v ===== *)
(** * The document value model of configuration/yaml.rs

    [Marker] is yaml_rust's source position, [Label] a mapping key whose
    equality ignores its marker, [Value.t] the tree ([Value::String],
    [Value::Sequence], [Value::Mapping]), and [end_marker] the best-effort
    end position of a node. *)

From S2P Require Import Prelude IndexMap.

(** [yaml_rust::scanner::Marker]: a byte index, a line and a column. *)
Record Marker : Type := mkMarker { index : nat; line : nat; col : nat }.

#[export] Instance Marker_eq_dec : EqDecision Marker.
Proof. solve_decision. Defined.

(** [struct Label]: [name] and an optional [marker]. *)
Record Label : Type := mkLabel { name : string; marker : option Marker }.

(** [#[derivative(Hash, PartialEq)]] with [marker] ignored: two labels are
    equal when their names are. *)
#[export] Instance Label_equiv : Equiv Label := λ a b, name a = name b.

#[export] Instance Label_equivalence : Equivalence (≡@{Label}).
Proof. split; repeat intro; unfold equiv, Label_equiv in *; congruence. Qed.

#[export] Instance Label_equiv_dec : RelDecision (≡@{Label}) :=
  λ a b, decide (name a = name b).

(** [impl From<String> for Label]: a label with no marker. *)
Definition Label_from (name : string) : Label := mkLabel name None.

Module Value.
#[local] Unset Elimination Schemes.

(** [enum Value]; a mapping's entries are an [IndexMap<Label, Value>],
    i.e. an [IndexMap.t Label Value.t], written out as the list it is so
    that the type is a nested inductive. *)
Inductive t : Type :=
| String (s : string) (m : Marker)
| Sequence (vs : list t) (m : Marker)
| Mapping (self : option Label) (entries : list (Label * t)) (m : Marker).

(** Induction with hypotheses on the children of sequences and
    mappings. *)
Section t_ind.
Variable P : t → Prop.
Hypothesis HString : ∀ s m, P (String s m).
Hypothesis HSequence : ∀ vs m, Forall P vs → P (Sequence vs m).
Hypothesis HMapping : ∀ l es m, Forall (λ e, P e.2) es → P (Mapping l es m).

Fixpoint t_ind (v : t) : P v :=
  match v with
  | String s m => HString s m
  | Sequence vs m =>
      HSequence vs m ((fix go (l : list t) : Forall P l :=
        match l with
        | [] => Forall_nil_2 _
        | x :: l' => Forall_cons_2 _ _ _ (t_ind x) (go l')
        end) vs)
  | Mapping lb es m =>
      HMapping lb es m ((fix go (l : list (Label * t)) :
          Forall (λ e, P e.2) l :=
        match l with
        | [] => Forall_nil_2 _
        | x :: l' => Forall_cons_2 _ _ _ (t_ind x.2) (go l')
        end) es)
  end.
End t_ind.

(** [Value::end_marker]: a string's own marker; for a sequence or a
    mapping, the end marker of its last child, or its own marker when it
    has none.  The recursion into [v.last()] is written as a walk to the
    last element, so that it is structural. *)
Fixpoint end_marker (v : t) : Marker :=
  match v with
  | String _ m => m
  | Sequence vs m =>
      (fix go (l : list t) : Marker :=
         match l with
         | [] => m
         | [x] => end_marker x
         | _ :: l' => go l'
         end) vs
  | Mapping _ es m =>
      (fix go (l : list (Label * t)) : Marker :=
         match l with
         | [] => m
         | [(_, x)] => end_marker x
         | _ :: l' => go l'
         end) es
  end.

(** The marker a node starts at. *)
Definition marker_of (v : t) : Marker :=
  match v with String _ m | Sequence _ m | Mapping _ _ m => m end.

(** Every marker held by a node's values (keys' markers excluded). *)
Fixpoint markers (v : t) : list Marker :=
  match v with
  | String _ m => [m]
  | Sequence vs m => m :: concat (map markers vs)
  | Mapping _ es m => m :: concat (map (λ e, markers e.2) es)
  end.

(** The greatest byte index of a node's markers. *)
Definition max_index (v : t) : nat := foldr max 0 (index <$> markers v).

(** A tree laid out in its text left to right: every child starts at or
    after the node it is in, and each child ends (its greatest position)
    before the next sibling starts, as the nodes of a YAML text do. *)
Fixpoint in_text_order (v : t) : Prop :=
  match v with
  | String _ _ => True
  | Sequence vs m =>
      all_list (λ x, index m ≤ index (marker_of x) ∧ in_text_order x) vs ∧
      chain (λ x y, max_index x ≤ index (marker_of y)) vs
  | Mapping _ es m =>
      all_list (λ e, index m ≤ index (marker_of e.2) ∧ in_text_order e.2) es ∧
      chain (λ e f, max_index e.2 ≤ index (marker_of f.2)) es
  end.

(** ** The end marker *)

(** [end_marker] is the code's [v.last().map(end_marker).unwrap_or(m)]. *)
Lemma end_marker_Sequence (vs : list t) (m : Marker) :
  end_marker (Sequence vs m) = default m (end_marker <$> last vs).
Proof.
  induction vs as [|x vs IH]; [done|]. destruct vs as [|y vs]; [done|].
  exact IH.
Qed.

Lemma end_marker_Mapping (lb : option Label) (es : list (Label * t))
  (m : Marker) :
  end_marker (Mapping lb es m) = default m ((λ e, end_marker e.2) <$> IndexMap.last es).
Proof.
  induction es as [|[k x] es IH]; [done|]. destruct es as [|y es]; [done|].
  exact IH.
Qed.

Lemma elem_of_markers_concat {A} (f : A → list Marker) (l : list A) x mk :
  x ∈ l → mk ∈ f x → mk ∈ concat (map f l).
Proof.
  rewrite !list_elem_of_In. intros. apply in_concat. eexists. split; [|done].
  by apply in_map.
Qed.

(** The end marker is a marker of the node: the marker of the last
    string reached by always descending into the last child, or the
    marker of an empty container.  Error positions therefore always point
    into the node's own text. *)
Lemma end_marker_in_markers (v : t) : end_marker v ∈ markers v.
Proof.
  induction v as [s m|vs m IH|lb es m IH] using t_ind.
  - by left.
  - rewrite end_marker_Sequence. destruct (last vs) as [x|] eqn:Hl; [|by left].
    apply last_Some in Hl as [l' ->]. apply Forall_snoc in IH as [_ Hx].
    right. eapply elem_of_markers_concat; [|exact Hx]. set_solver.
  - rewrite end_marker_Mapping. unfold IndexMap.last. destruct (last es) as [x|] eqn:Hl; [|by left].
    apply last_Some in Hl as [l' ->]. apply Forall_snoc in IH as [_ Hx].
    right. eapply (elem_of_markers_concat (λ e, markers e.2)); [|exact Hx].
    set_solver.
Qed.

Lemma index_le_max_index (v : t) (mk : Marker) : mk ∈ markers v → index mk ≤ max_index v.
Proof.
  unfold max_index. generalize (markers v) as l. intros l.
  induction l as [|y l IH]; intros Hin; [by apply not_elem_of_nil in Hin|].
  rewrite fmap_cons. cbn [foldr].
  apply elem_of_cons in Hin as [->|Hin]; [lia|]. specialize (IH Hin). lia.
Qed.

Lemma marker_of_le_max_index (v : t) : index (marker_of v) ≤ max_index v.
Proof. apply index_le_max_index. destruct v; by left. Qed.

Lemma max_index_children {A} (g : A → t) (l : list A) :
  foldr max 0 (index <$> concat (map (λ a, markers (g a)) l)) =
  foldr max 0 ((λ a, max_index (g a)) <$> l).
Proof.
  induction l as [|a l IH]; [done|]. cbn [map concat].
  by rewrite fmap_app, foldr_max_app, IH, fmap_cons.
Qed.

(** Children laid out left to right, none before the node's own marker:
    the node's greatest position is its last child's. *)
Lemma max_index_last_child {A} (g : A → t) (l : list A) (m : Marker) (z : A) :
  Forall (λ a, index m ≤ index (marker_of (g a))) l →
  chain (λ a b, max_index (g a) ≤ index (marker_of (g b))) l →
  last l = Some z →
  max (index m) (foldr max 0 ((λ a, max_index (g a)) <$> l)) = max_index (g z).
Proof.
  intros Hm Hc Hl.
  rewrite (foldr_max_chain_last (λ a, max_index (g a)) l z); [|
    eapply chain_impl; [|exact Hc]; cbv beta; intros a b Hab;
    pose proof (marker_of_le_max_index (g b)); lia|done].
  apply last_Some in Hl as [l' ->]. apply Forall_snoc in Hm as [_ Hz].
  pose proof (marker_of_le_max_index (g z)). lia.
Qed.

(** ** Theorems *)

(** C24: [end_marker] is the end of the node: in a tree laid out in its
    text left to right, the end marker's byte index is the greatest index
    of all the node's markers, the position of the last scalar of the
    node's text (an empty container's own marker when it has nothing
    after it).  Returning the node's own marker, or recursing into another
    child than the last, breaks it. *)
Theorem end_marker_is_last_position (v : t) :
  in_text_order v → index (end_marker v) = max_index v.
Proof.
  induction v as [s m|vs m IH|lb es m IH] using t_ind; cbn [in_text_order]; intros Hv.
  - unfold max_index. simpl. lia.
  - destruct Hv as [Hall Hc]. apply all_list_Forall in Hall.
    unfold max_index. cbn [markers]. rewrite fmap_cons. cbn [foldr].
    rewrite (max_index_children (λ a, a)). rewrite end_marker_Sequence.
    destruct (last vs) as [x|] eqn:Hl; simpl.
    + rewrite (max_index_last_child (λ a, a) vs m x); [|by eapply Forall_impl; [exact Hall|]; intros ? []|done|done].
      apply last_Some in Hl as [l' ->]. apply Forall_snoc in IH as [_ IHx].
      apply Forall_snoc in Hall as [_ [_ Hx]]. by apply IHx.
    + apply last_None in Hl as ->. simpl. lia.
  - destruct Hv as [Hall Hc]. apply all_list_Forall in Hall.
    unfold max_index. cbn [markers]. rewrite fmap_cons. cbn [foldr].
    rewrite (max_index_children snd). rewrite end_marker_Mapping. unfold IndexMap.last.
    destruct (last es) as [x|] eqn:Hl; simpl.
    + rewrite (max_index_last_child snd es m x); [|by eapply Forall_impl; [exact Hall|]; intros ? []|done|done].
      apply last_Some in Hl as [l' ->]. apply Forall_snoc in IH as [_ IHx].
      apply Forall_snoc in Hall as [_ [_ Hx]]. by apply IHx.
    + apply last_None in Hl as ->. simpl. lia.
Qed.

Lemma end_marker_is_last_position_witness :
  index (end_marker (Sequence [String "c" (mkMarker 4 2 2);
                               Sequence [String "d" (mkMarker 12 4 4)] (mkMarker 10 4 2)]
                       (mkMarker 0 1 0))) =
  max_index (Sequence [String "c" (mkMarker 4 2 2);
                       Sequence [String "d" (mkMarker 12 4 4)] (mkMarker 10 4 2)]
               (mkMarker 0 1 0)).
Proof. apply end_marker_is_last_position. cbn. repeat split; cbn; lia. Defined.
End Value.

(** [IndexMap<Label, Value>::insert], as the builder uses it for a
    YAML mapping: keys are compared by name only; inserting keeps the names
    unique; the key then maps to the new value (last write wins); a name
    already present keeps its stored label (with the first occurrence's
    marker) and its place, and a new name is appended, so the key order is
    the order of first occurrence. *)
Theorem mapping_insert_spec (k : Label) (v : Value.t) (es : list (Label * Value.t)) :
  IndexMap.keys_unique es →
  IndexMap.keys_unique (IndexMap.insert k v es) ∧
  IndexMap.get k (IndexMap.insert k v es) = Some v ∧
  (∀ k', name k' ≠ name k → IndexMap.get k' (IndexMap.insert k v es) = IndexMap.get k' es) ∧
  IndexMap.keys (IndexMap.insert k v es) =
    match IndexMap.get k es with
    | Some _ => IndexMap.keys es
    | None => IndexMap.keys es ++ [k]
    end.
Proof.
  intros Hu. split; [by apply IndexMap.keys_unique_insert|].
  split; [apply IndexMap.get_insert_eq|]. split.
  - intros k' Hne. rewrite IndexMap.get_insert, decide_False; [done|].
    intros Hk. by apply Hne.
  - destruct (IndexMap.get k es) eqn:Hg;
      [by eapply IndexMap.keys_insert_present|by apply IndexMap.keys_insert_fresh].
Qed.

Lemma mapping_insert_spec_witness :
  IndexMap.keys (IndexMap.insert (mkLabel "a" None) (Value.String "5" (mkMarker 9 3 3))
    [(mkLabel "a" (Some (mkMarker 0 1 0)), Value.String "4" (mkMarker 3 1 3));
     (mkLabel "b" (Some (mkMarker 5 2 0)), Value.String "x" (mkMarker 8 2 3))]) =
  [mkLabel "a" (Some (mkMarker 0 1 0)); mkLabel "b" (Some (mkMarker 5 2 0))].
Proof.
  apply (mapping_insert_spec (mkLabel "a" None) (Value.String "5" (mkMarker 9 3 3))).
  split; [reflexivity|]. split; [reflexivity|done].
Defined.

