(* ===== verification/MarkedYaml.v ===== *)
(** * The marked-YAML builder: [struct MarkedYaml] and its event handler

    The state of [MarkedYaml] (anchors, current label, object stack, root),
    its helpers [end_container], [add_value] and [add_alias_value], and
    [impl MarkedEventReceiver for MarkedYaml] ([on_event]), driven over an
    event list by [load] (yaml_rust's [Parser::load]).  Each handler returns
    the new state and the warnings it logs through [tracing::warn!]; the
    [expect] of [end_container] is a [Panicked] outcome. *)

From S2P Require Import Prelude IndexMap Value.

(** ** Events of yaml_rust *)

(** [yaml_rust::scanner::TScalarStyle]. *)
Inductive TScalarStyle : Type :=
| Any | Plain | SingleQuoted | DoubleQuoted | Literal | Foled.

(** The tag of a scalar: [TokenType::Tag(handle, suffix)]. *)
Definition Tag : Type := string * string.

(** [yaml_rust::Event]; anchor ids are [usize], 0 meaning no anchor. *)
Inductive Event : Type :=
| Nothing
| StreamStart
| StreamEnd
| DocumentStart
| DocumentEnd
| Alias (id : nat)
| Scalar (v : string) (style : TScalarStyle) (id : nat) (tag : option Tag)
| SequenceStart (id : nat)
| SequenceEnd
| MappingStart (id : nat)
| MappingEnd.

(** The messages of the [tracing::warn!] calls. *)
Inductive Warning : Type :=
| LabeledScalarWithoutContainer  (** "labeled scalar without container in yaml" *)
| ScalarWithoutContainer         (** "scalar without container in yaml" *)
| UnresolvedAnchor.              (** "unresolved anchor in yaml" *)

#[export] Instance Warning_eq_dec : EqDecision Warning.
Proof. solve_decision. Defined.

(** ** The builder's state *)

(** An element of [object_stack: Vec<(Option<Label>, Value, usize)>]. *)
Definition Frame : Type := option Label * Value.t * nat.

(** [struct MarkedYaml].  [object_stack] lists the [Vec] from its last
    element (the top, [last_mut]) to its first. *)
Record MarkedYaml : Type := mkMarkedYaml {
  anchors : gmap nat Value.t;
  current_label : option Label;
  object_stack : list Frame;
  root : option Value.t;
}.

(** [#[derive(Default)]]. *)
Definition MarkedYaml_default : MarkedYaml := mkMarkedYaml ∅ None [] None.

(** The two arms shared by [end_container], [add_value] and
    [add_alias_value]: a value with a label goes into a mapping on top of
    the stack ([mapping.insert(label, v)]), a value without one into a
    sequence ([sequence.push(v)]); any other combination matches neither. *)
Definition attach (label : option Label) (v : Value.t) (stack : list Frame) :
    option (list Frame) :=
  match label, stack with
  | Some label, (fl, Value.Mapping cl mapping mk, id) :: rest =>
      Some ((fl, Value.Mapping cl (IndexMap.insert label v mapping) mk, id) :: rest)
  | None, (fl, Value.Sequence sequence mk, id) :: rest =>
      Some ((fl, Value.Sequence (sequence ++ [v]) mk, id) :: rest)
  | _, _ => None
  end.

(** [Vec::pop] on the stack. *)
Definition pop (stack : list Frame) : option (Frame * list Frame) :=
  match stack with
  | [] => None
  | f :: rest => Some (f, rest)
  end.

(** [MarkedYaml::end_container]: pop the top frame (panicking on an empty
    stack), record its value under its anchor id, then attach it to the new
    top; when it cannot be attached it is returned (and becomes the root). *)
Definition end_container (st : MarkedYaml) : outcome (MarkedYaml * option Value.t) :=
  '((label, v, id), rest) ← expect "imbalanced parse events" (pop (object_stack st));
  let anchors' := <[id := v]> (anchors st) in
  match attach label v rest with
  | Some rest' => mret (mkMarkedYaml anchors' (current_label st) rest' (root st), None)
  | None => mret (mkMarkedYaml anchors' (current_label st) rest (root st), Some v)
  end.

(** [MarkedYaml::add_value]: the label is taken; a scalar that can be
    attached is recorded under its anchor id and attached; an unattachable
    scalar read with no pending label becomes the pending label (a mapping
    key); one read with a pending label is dropped with a warning. *)
Definition add_value (marker : Marker) (v : string) (id : nat) (st : MarkedYaml) :
    MarkedYaml * list Warning :=
  let sv := Value.String v marker in
  match attach (current_label st) sv (object_stack st) with
  | Some stack' =>
      (mkMarkedYaml (<[id := sv]> (anchors st)) None stack' (root st), [])
  | None =>
      match current_label st with
      | None =>
          (mkMarkedYaml (anchors st) (Some (mkLabel v (Some marker)))
             (object_stack st) (root st), [])
      | Some _ =>
          (mkMarkedYaml (anchors st) None (object_stack st) (root st),
           [LabeledScalarWithoutContainer])
      end
  end.

(** [MarkedYaml::add_alias_value]: the label is taken; the value is
    attached, or dropped with a warning. *)
Definition add_alias_value (v : Value.t) (st : MarkedYaml) : MarkedYaml * list Warning :=
  match attach (current_label st) v (object_stack st) with
  | Some stack' => (mkMarkedYaml (anchors st) None stack' (root st), [])
  | None =>
      (mkMarkedYaml (anchors st) None (object_stack st) (root st),
       [ScalarWithoutContainer])
  end.

(** [MarkedEventReceiver::on_event].  A start event pushes a frame that
    takes the pending label (a mapping also keeps it as its own label); an
    end event stores [end_container]'s result in [root], so every nested
    end resets the root to [None]; an alias attaches a copy of the anchored
    value, or is ignored with a warning, the pending label left in place. *)
Definition on_event (ev : Event) (marker : Marker) (st : MarkedYaml) :
    outcome (MarkedYaml * list Warning) :=
  match ev with
  | Scalar v _ id _ => mret (add_value marker v id st)
  | SequenceStart id =>
      mret (mkMarkedYaml (anchors st) None
              ((current_label st, Value.Sequence [] marker, id) :: object_stack st)
              (root st), [])
  | SequenceEnd | MappingEnd =>
      '(st', r) ← end_container st;
      mret (mkMarkedYaml (anchors st') (current_label st') (object_stack st') r, [])
  | MappingStart id =>
      let cl := current_label st in
      mret (mkMarkedYaml (anchors st) None
              ((cl, Value.Mapping cl IndexMap.new marker, id) :: object_stack st)
              (root st), [])
  | Alias id =>
      match anchors st !! id with
      | Some v => mret (add_alias_value v st)
      | None => mret (st, [UnresolvedAnchor])
      end
  | DocumentStart | DocumentEnd => mret (st, [])
  | _ => mret (st, [])
  end.

(** yaml_rust's [Parser::load]: every event of the stream, with its
    marker, is handed to [on_event] in order; the warnings accumulate. *)
Fixpoint load (evs : list (Event * Marker)) (st : MarkedYaml) :
    outcome (MarkedYaml * list Warning) :=
  match evs with
  | [] => mret (st, [])
  | (ev, m) :: evs' =>
      '(st1, w1) ← on_event ev m st;
      '(st2, w2) ← load evs' st1;
      mret (st2, w1 ++ w2)
  end.

(** ** The invariant *)

(** Every mapping of a value has unique key names. *)
Fixpoint wf_value (v : Value.t) : Prop :=
  match v with
  | Value.String _ _ => True
  | Value.Sequence vs _ => all_list wf_value vs
  | Value.Mapping _ es _ => IndexMap.keys_unique es ∧ all_list (λ e, wf_value e.2) es
  end.

(** A frame holds a container; a mapping's own label is the frame's. *)
Definition wf_frame (f : Frame) : Prop :=
  let '(fl, v, _) := f in
  wf_value v ∧
  match v with
  | Value.String _ _ => False
  | Value.Sequence _ _ => True
  | Value.Mapping cl _ _ => cl = fl
  end.

Definition wf_state (st : MarkedYaml) : Prop :=
  Forall wf_frame (object_stack st) ∧
  map_Forall (λ _, wf_value) (anchors st) ∧
  from_option wf_value True (root st).

(** The states the builder reaches from [MarkedYaml::default()] by
    handling events one at a time. *)
Inductive reachable : MarkedYaml → Prop :=
| reachable_default : reachable MarkedYaml_default
| reachable_step st ev m st' w :
    reachable st → on_event ev m st = Returned (st', w) → reachable st'.

(** ** Depth of the object stack *)

(** How an event changes the depth of the object stack; [None] when an
    end event finds it empty. *)
Definition depth_change (ev : Event) (d : nat) : option nat :=
  match ev with
  | SequenceStart _ | MappingStart _ => Some (S d)
  | SequenceEnd | MappingEnd => match d with 0 => None | S d' => Some d' end
  | _ => Some d
  end.

(** No end event of [evs] meets an empty stack, starting at depth [d]. *)
Fixpoint balanced_from (d : nat) (evs : list (Event * Marker)) : bool :=
  match evs with
  | [] => true
  | (ev, _) :: evs' =>
      match depth_change ev d with
      | Some d' => balanced_from d' evs'
      | None => false
      end
  end.

(** ** Lemmas on the invariant *)

Lemma wf_value_Sequence (vs : list Value.t) (m : Marker) :
  wf_value (Value.Sequence vs m) ↔ Forall wf_value vs.
Proof. apply all_list_Forall. Qed.

Lemma wf_value_Mapping (l : option Label) (es : list (Label * Value.t)) (m : Marker) :
  wf_value (Value.Mapping l es m) ↔
  IndexMap.keys_unique es ∧ Forall (λ e, wf_value e.2) es.
Proof. simpl. by rewrite all_list_Forall. Qed.

(** Attaching a well-formed value keeps every frame well formed. *)
Lemma attach_wf (l : option Label) (v : Value.t) (stk stk' : list Frame) :
  Forall wf_frame stk → wf_value v → attach l v stk = Some stk' →
  Forall wf_frame stk'.
Proof.
  intros Hstk Hv Ha.
  destruct l as [l|], stk as [|[[fl fv] id] rest]; try discriminate;
    destruct fv as [|vs mk|cl es mk]; try discriminate;
    injection Ha as <-; apply Forall_cons in Hstk as [[Hw Hk] Hr];
    constructor; try done; split; try done.
  - apply wf_value_Mapping in Hw as [Hu Hes]. apply wf_value_Mapping.
    split; [by apply IndexMap.keys_unique_insert|by apply IndexMap.Forall_insert].
  - apply wf_value_Sequence in Hw. apply wf_value_Sequence, Forall_snoc. done.
Qed.

Lemma add_value_wf (marker : Marker) (v : string) (id : nat) (st : MarkedYaml) :
  wf_state st → wf_state (add_value marker v id st).1.
Proof.
  intros (Hf & Ha & Hr). unfold add_value.
  destruct (attach _ _ _) as [stk'|] eqn:Hat; [|destruct (current_label st)];
    repeat split; simpl; try done.
  - eapply attach_wf; [exact Hf| |exact Hat]. done.
  - by apply map_Forall_insert_2.
Qed.

Lemma add_alias_value_wf (v : Value.t) (st : MarkedYaml) :
  wf_state st → wf_value v → wf_state (add_alias_value v st).1.
Proof.
  intros (Hf & Ha & Hr) Hv. unfold add_alias_value.
  destruct (attach _ _ _) as [stk'|] eqn:Hat; repeat split; simpl; try done.
  by eapply attach_wf.
Qed.

Lemma end_container_wf (st st' : MarkedYaml) (r : option Value.t) :
  wf_state st → end_container st = Returned (st', r) →
  wf_state st' ∧ from_option wf_value True r.
Proof.
  intros (Hf & Ha & Hr) He. unfold end_container in He.
  destruct (object_stack st) as [|[[fl v] id] rest]; simpl in He; [discriminate|].
  apply Forall_cons in Hf as [[Hv _] Hrest].
  destruct (attach fl v rest) as [rest'|] eqn:Hat; injection He as <- <-;
    repeat split; simpl; try done.
  - by eapply attach_wf.
  - by apply map_Forall_insert_2.
  - by apply map_Forall_insert_2.
Qed.

(** [on_event] keeps the invariant. *)
Lemma on_event_wf (ev : Event) (m : Marker) (st st' : MarkedYaml) (w : list Warning) :
  wf_state st → on_event ev m st = Returned (st', w) → wf_state st'.
Proof.
  intros Hwf Hev. pose proof Hwf as (Hf & Ha & Hr).
  destruct ev as [| | | | |aid|sv sty sid stag|qid| |mid|]; simpl in Hev;
    outcome_simp; subst; try done.
  - destruct (anchors st !! aid) as [v|] eqn:Hid; outcome_simp; subst; try done.
    change st' with (st', w).1. rewrite <- Hev.
    apply add_alias_value_wf; [done|]. exact (map_Forall_lookup_1 _ _ _ _ Ha Hid).
  - change st' with (st', w).1. rewrite <- Hev. by apply add_value_wf.
  - repeat split; simpl; try done. by constructor.
  - destruct x as [st1 r]. outcome_simp. subst.
    apply end_container_wf in H as [(? & ? & ?) ?]; [|done]. by repeat split.
  - repeat split; simpl; try done. constructor; [|done]. split; [|done].
    by apply wf_value_Mapping.
  - destruct x as [st1 r]. outcome_simp. subst.
    apply end_container_wf in H as [(? & ? & ?) ?]; [|done]. by repeat split.
Qed.

Lemma attach_length (l : option Label) (v : Value.t) (stk stk' : list Frame) :
  attach l v stk = Some stk' → length stk' = length stk.
Proof.
  destruct l, stk as [|[[fl []] id] rest]; simpl; intros H; simplify_eq; done.
Qed.

Lemma end_container_depth (st st' : MarkedYaml) (r : option Value.t) :
  end_container st = Returned (st', r) →
  depth_change SequenceEnd (length (object_stack st)) = Some (length (object_stack st')).
Proof.
  unfold end_container. destruct (object_stack st) as [|[[fl v] id] rest];
    simpl; [discriminate|].
  destruct (attach fl v rest) eqn:Ha; intros H; injection H as <- <-; simpl; [|done].
  by rewrite (attach_length _ _ _ _ Ha).
Qed.

Lemma on_event_depth (ev : Event) (m : Marker) (st st' : MarkedYaml) (w : list Warning) :
  on_event ev m st = Returned (st', w) →
  depth_change ev (length (object_stack st)) = Some (length (object_stack st')).
Proof.
  intros Hev. destruct ev as [| | | | |aid|sv sty sid stag|qid| |mid|];
    simpl in Hev; outcome_simp; subst; try done.
  - destruct (anchors st !! aid); outcome_simp; subst; [|done].
    unfold add_alias_value in Hev.
    destruct (attach _ _ _) eqn:Ha; injection Hev as <- <-; simpl; [|done].
    by rewrite (attach_length _ _ _ _ Ha).
  - unfold add_value in Hev.
    destruct (attach _ _ _) eqn:Ha; [|destruct (current_label st)];
      injection Hev as <- <-; simpl; try done.
    by rewrite (attach_length _ _ _ _ Ha).
  - destruct x as [st1 r]. outcome_simp. subst. by apply end_container_depth in H.
  - destruct x as [st1 r]. outcome_simp. subst. by apply end_container_depth in H.
Qed.

(** Each event logs at most one warning. *)
Lemma on_event_warnings (ev : Event) (m : Marker) (st st' : MarkedYaml) (w : list Warning) :
  on_event ev m st = Returned (st', w) → length w ≤ 1.
Proof.
  intros Hev. destruct ev as [| | | | |aid|sv sty sid stag|qid| |mid|];
    simpl in Hev; outcome_simp; subst; simpl; try lia.
  - destruct (anchors st !! aid); outcome_simp; subst; simpl; [|lia].
    unfold add_alias_value in Hev. destruct (attach _ _ _); injection Hev as _ <-; simpl; lia.
  - unfold add_value in Hev. destruct (attach _ _ _); [|destruct (current_label st)];
      injection Hev as _ <-; simpl; lia.
  - destruct x as [st1 r]. outcome_simp. subst. simpl. lia.
  - destruct x as [st1 r]. outcome_simp. subst. simpl. lia.
Qed.

(** [load] is [on_event] iterated: it splits at any point of the stream. *)
Lemma load_app (l1 l2 : list (Event * Marker)) (st : MarkedYaml) :
  load (l1 ++ l2) st =
    '(st1, w1) ← load l1 st; '(st2, w2) ← load l2 st1; mret (st2, w1 ++ w2).
Proof.
  revert st. induction l1 as [|[ev m] l1 IH]; intros st; simpl.
  - destruct (load l2 st) as [[st2 w2]|]; done.
  - destruct (on_event ev m st) as [[st1 w1]|]; simpl; [|done].
    rewrite IH. destruct (load l1 st1) as [[st2 w2]|]; simpl; [|done].
    destruct (load l2 st2) as [[st3 w3]|]; simpl; [|done].
    by rewrite app_assoc.
Qed.

(** A state with a mapping open and the key [l] pending, for witnesses. *)
Definition witness_state : MarkedYaml :=
  mkMarkedYaml {[1 := Value.String "d" (mkMarker 31 4 6)]} (Some (mkLabel "l" None))
    [(None, Value.Mapping None [] (mkMarker 0 1 0), 0)] None.

(** An end event on a state with an open frame closes the top frame,
    without warning, leaving the frames below; closing the last frame
    makes a root. *)
Lemma on_event_end_progress (ev : Event) (m : Marker) (st : MarkedYaml) (f : Frame)
    (rest : list Frame) :
  ev = SequenceEnd ∨ ev = MappingEnd → object_stack st = f :: rest →
  ∃ st', on_event ev m st = Returned (st', []) ∧ length (object_stack st') = length rest ∧
    (rest = [] → is_Some (root st')).
Proof.
  intros Hev Hs. destruct f as [[fl v] id].
  assert (on_event ev m st = ('(st', r) ← end_container st;
            mret (mkMarkedYaml (anchors st') (current_label st') (object_stack st') r, [])))
    as -> by (by destruct Hev as [-> | ->]).
  unfold end_container. rewrite Hs. simpl.
  destruct (attach fl v rest) as [rest'|] eqn:Ha; simpl; eexists; (split; [reflexivity|]); simpl.
  - split; [by eapply attach_length|]. intros ->. by destruct fl.
  - split; [done|]. by eexists.
Qed.

(** ** Theorems *)

(** C3: Every state the builder reaches from [MarkedYaml::default()] is
    well formed: each open frame holds a sequence or a mapping (a mapping
    carrying the frame's label as its own), and every mapping held in the
    frames, the anchor table or the root has unique key names, so a key
    defined twice keeps one entry (last write wins). *)
Theorem reachable_wf (st : MarkedYaml) : reachable st → wf_state st.
Proof.
  induction 1 as [|st ev m st' w _ IH Hev].
  - repeat split; simpl; auto with yaml. apply map_Forall_empty.
  - by eapply on_event_wf.
Qed.

Lemma reachable_wf_witness :
  wf_state (mkMarkedYaml ∅ None [(None, Value.Mapping None [] (mkMarker 0 1 0), 0)] None).
Proof.
  apply reachable_wf.
  apply (reachable_step MarkedYaml_default (MappingStart 0) (mkMarker 0 1 0) _ []);
    [apply reachable_default|reflexivity].
Defined.

Lemma on_event_Panicked_inv (ev : Event) (m : Marker) (st : MarkedYaml) (msg : string) :
  on_event ev m st = Panicked msg →
  (ev = SequenceEnd ∨ ev = MappingEnd) ∧ object_stack st = [] ∧
  msg = "imbalanced parse events".
Proof.
  destruct ev as [| | | | |aid|sv sty sid stag|qid| |mid|]; simpl;
    try (destruct (anchors st !! aid)); try discriminate;
    unfold end_container; destruct (object_stack st) as [|[[fl v] id] rest];
    simpl; try (destruct (attach fl v rest)); intros H; simplify_eq; auto.
Qed.

(** A stream that never underflows the stack is loaded without panic. *)
Lemma load_balanced_returns (evs : list (Event * Marker)) (st : MarkedYaml) :
  balanced_from (length (object_stack st)) evs = true →
  ∃ r, load evs st = Returned r.
Proof.
  revert st. induction evs as [|[ev m] evs IH]; intros st; simpl; [eauto|].
  destruct (on_event ev m st) as [[st1 w1]|msg] eqn:Hev; simpl.
  - rewrite (on_event_depth _ _ _ _ _ Hev). intros Hb.
    destruct (IH st1 Hb) as [[st2 w2] ->]. simpl. eauto.
  - apply on_event_Panicked_inv in Hev as [[-> | ->] [-> _]]; discriminate.
Qed.

(** C4: [on_event] panics exactly on an end event ([SequenceEnd] or
    [MappingEnd]) met with an empty object stack, with the message of the
    [expect], "imbalanced parse events"; every other event returns. *)
Theorem on_event_Panicked_iff (ev : Event) (m : Marker) (st : MarkedYaml) (msg : string) :
  on_event ev m st = Panicked msg ↔
  (ev = SequenceEnd ∨ ev = MappingEnd) ∧ object_stack st = [] ∧
  msg = "imbalanced parse events".
Proof.
  split; [apply on_event_Panicked_inv|].
  intros [[-> | ->] [Hs ->]]; simpl; unfold end_container; by rewrite Hs.
Qed.

(** C5: [load] panics exactly when the event stream is unbalanced: some
    end event comes when the object stack (of the starting depth plus the
    starts and minus the ends before it) is empty.  On a stream the parser
    balances, [load] always returns. *)
Theorem load_panics_iff_unbalanced (evs : list (Event * Marker)) (st : MarkedYaml) :
  (∃ msg, load evs st = Panicked msg) ↔
  balanced_from (length (object_stack st)) evs = false.
Proof.
  revert st. induction evs as [|[ev m] evs IH]; intros st; simpl.
  - split; [intros [? ?]; discriminate|discriminate].
  - destruct (on_event ev m st) as [[st1 w1]|msg] eqn:Hev; simpl.
    + rewrite (on_event_depth _ _ _ _ _ Hev), <- IH.
      destruct (load evs st1) as [[st2 w2]|msg]; simpl; split;
        intros [? ?]; by eauto.
    + apply on_event_Panicked_inv in Hev as [[-> | ->] [-> _]]; simpl;
        split; eauto.
Qed.

(** C6: An alias whose anchor is known attaches a copy of the anchored
    value, with the anchor's markers and not the alias's: in a mapping with
    a pending key the key is bound to that copy and the label is consumed;
    nothing is logged. *)
Theorem alias_inserts_anchor_copy (aid : nat) (m : Marker) (st : MarkedYaml)
    (v : Value.t) (k : Label) (fl cl : option Label) (es : list (Label * Value.t))
    (mk : Marker) (fid : nat) (rest : list Frame) :
  anchors st !! aid = Some v →
  current_label st = Some k →
  object_stack st = (fl, Value.Mapping cl es mk, fid) :: rest →
  on_event (Alias aid) m st =
    Returned (mkMarkedYaml (anchors st) None
                ((fl, Value.Mapping cl (IndexMap.insert k v es) mk, fid) :: rest)
                (root st), []) ∧
  IndexMap.get k (IndexMap.insert k v es) = Some v.
Proof.
  intros Ha Hl Hs. split; [|apply IndexMap.get_insert_eq].
  simpl. rewrite Ha. unfold add_alias_value. by rewrite Hl, Hs.
Qed.

Lemma alias_inserts_anchor_copy_witness :
  on_event (Alias 1) (mkMarker 46 6 5) witness_state =
    Returned (mkMarkedYaml (anchors witness_state) None
                [(None, Value.Mapping None
                          (IndexMap.insert (mkLabel "l" None)
                             (Value.String "d" (mkMarker 31 4 6)) []) (mkMarker 0 1 0), 0)]
                None, []) ∧
  IndexMap.get (mkLabel "l" None)
    (IndexMap.insert (mkLabel "l" None) (Value.String "d" (mkMarker 31 4 6)) []) =
    Some (Value.String "d" (mkMarker 31 4 6)).
Proof.
  exact (alias_inserts_anchor_copy 1 (mkMarker 46 6 5) witness_state
           (Value.String "d" (mkMarker 31 4 6)) (mkLabel "l" None) None None []
           (mkMarker 0 1 0) 0 [] eq_refl eq_refl eq_refl).
Defined.

(** C7: An alias whose anchor is not (yet) in the table changes nothing
    but logs "unresolved anchor in yaml": in particular the pending key is
    not consumed, so it is still pending for the next scalar. *)
Theorem unresolved_alias_keeps_state (aid : nat) (m : Marker) (st : MarkedYaml) :
  anchors st !! aid = None →
  on_event (Alias aid) m st = Returned (st, [UnresolvedAnchor]).
Proof. intros Ha. simpl. by rewrite Ha. Qed.

Lemma unresolved_alias_keeps_state_witness :
  on_event (Alias 7) (mkMarker 0 1 0) witness_state = Returned (witness_state, [UnresolvedAnchor]).
Proof. apply unresolved_alias_keeps_state. reflexivity. Defined.

(** C8: A scalar read in a mapping with no pending key becomes the pending
    key, with its marker; a scalar read in a mapping with a pending key is
    bound to that key, recorded under its anchor id, and the key is
    consumed. *)
Theorem scalar_in_mapping (v : string) (sty : TScalarStyle) (sid : nat)
    (tag : option Tag) (m : Marker) (st : MarkedYaml) (fl cl : option Label)
    (es : list (Label * Value.t)) (mk : Marker) (fid : nat) (rest : list Frame) :
  object_stack st = (fl, Value.Mapping cl es mk, fid) :: rest →
  on_event (Scalar v sty sid tag) m st =
    match current_label st with
    | None =>
        Returned (mkMarkedYaml (anchors st) (Some (mkLabel v (Some m)))
                    (object_stack st) (root st), [])
    | Some k =>
        Returned (mkMarkedYaml (<[sid := Value.String v m]> (anchors st)) None
                    ((fl, Value.Mapping cl (IndexMap.insert k (Value.String v m) es) mk,
                      fid) :: rest) (root st), [])
    end.
Proof.
  intros Hs. simpl. unfold add_value. rewrite Hs.
  by destruct (current_label st).
Qed.

Lemma scalar_in_mapping_witness :
  on_event (Scalar "4" Plain 0 None) (mkMarker 11 2 5) witness_state =
    Returned (mkMarkedYaml (<[0 := Value.String "4" (mkMarker 11 2 5)]> (anchors witness_state))
                None [(None, Value.Mapping None
                               (IndexMap.insert (mkLabel "l" None)
                                  (Value.String "4" (mkMarker 11 2 5)) []) (mkMarker 0 1 0), 0)]
                None, []).
Proof.
  exact (scalar_in_mapping "4" Plain 0 None (mkMarker 11 2 5) witness_state None None []
           (mkMarker 0 1 0) 0 [] eq_refl).
Defined.

(** C13: An unresolved alias shifts the rest of its mapping: in any
    mapping with a pending key [k], after an alias to an id missing from
    the anchor table, the next two scalars (in the source, the following
    key [k'] and its value) are read the wrong way round: [k'] is bound to
    [k] as its value, and [k']'s value becomes the pending key.  A warning
    is logged, but the entry is not simply omitted as the spec says. *)
Theorem unresolved_alias_shifts_mapping (aid : nat) (ma m1 m2 : Marker) (v1 v2 : string)
    (sty1 sty2 : TScalarStyle) (sid1 sid2 : nat) (tag1 tag2 : option Tag) (st : MarkedYaml)
    (k : Label) (fl cl : option Label) (es : list (Label * Value.t)) (mk : Marker)
    (fid : nat) (rest : list Frame) :
  anchors st !! aid = None →
  current_label st = Some k →
  object_stack st = (fl, Value.Mapping cl es mk, fid) :: rest →
  load [(Alias aid, ma); (Scalar v1 sty1 sid1 tag1, m1); (Scalar v2 sty2 sid2 tag2, m2)] st =
    Returned (mkMarkedYaml (<[sid1 := Value.String v1 m1]> (anchors st))
                (Some (mkLabel v2 (Some m2)))
                ((fl, Value.Mapping cl (IndexMap.insert k (Value.String v1 m1) es) mk, fid)
                   :: rest) (root st), [UnresolvedAnchor]).
Proof.
  intros Ha Hl Hs. simpl. rewrite Ha. simpl. unfold add_value. by rewrite Hl, Hs.
Qed.

Lemma unresolved_alias_shifts_mapping_witness :
  load [(Alias 3, mkMarker 5 1 5); (Scalar "c" Plain 0 None, mkMarker 7 2 0);
        (Scalar "1" Plain 0 None, mkMarker 10 2 3)]
    (mkMarkedYaml ∅ (Some (mkLabel "b" (Some (mkMarker 0 1 0))))
       [(None, Value.Mapping None [] (mkMarker 0 1 0), 0)] None) =
  Returned (mkMarkedYaml (<[0 := Value.String "c" (mkMarker 7 2 0)]> ∅)
              (Some (mkLabel "1" (Some (mkMarker 10 2 3))))
              [(None, Value.Mapping None
                        [(mkLabel "b" (Some (mkMarker 0 1 0)), Value.String "c" (mkMarker 7 2 0))]
                        (mkMarker 0 1 0), 0)] None, [UnresolvedAnchor]).
Proof.
  exact (unresolved_alias_shifts_mapping 3 (mkMarker 5 1 5) (mkMarker 7 2 0) (mkMarker 10 2 3)
           "c" "1" Plain Plain 0 0 None None
           (mkMarkedYaml ∅ (Some (mkLabel "b" (Some (mkMarker 0 1 0))))
              [(None, Value.Mapping None [] (mkMarker 0 1 0), 0)] None)
           (mkLabel "b" (Some (mkMarker 0 1 0))) None None [] (mkMarker 0 1 0) 0 []
           eq_refl eq_refl eq_refl).
Defined.

(** C15: Liveness: the builder can always finish.  From any state with
    [n] open frames, [n] end events (of either kind) close them all,
    without panic and without warning, and the last one makes a root: no
    state is stuck with containers it cannot close. *)
Theorem close_open_frames (st : MarkedYaml) (evs : list (Event * Marker)) :
  Forall (λ e, e.1 = SequenceEnd ∨ e.1 = MappingEnd) evs →
  length evs = length (object_stack st) → evs ≠ [] →
  ∃ st', load evs st = Returned (st', []) ∧ object_stack st' = [] ∧ is_Some (root st').
Proof.
  revert st. induction evs as [|[ev m] evs IH]; intros st Hall Hlen Hne; [done|].
  apply Forall_cons in Hall as [Hev Hall]. simpl in Hev, Hlen.
  destruct (object_stack st) as [|f rest] eqn:Hs; [discriminate|]. injection Hlen as Hlen.
  destruct (on_event_end_progress ev m st f rest Hev Hs) as (st1 & Hst1 & Hl1 & Hr1).
  simpl. rewrite Hst1. simpl.
  destruct evs as [|e evs].
  - destruct rest; [|discriminate]. exists st1. simpl. split; [done|].
    split; [by destruct (object_stack st1)|]. by apply Hr1.
  - destruct (IH st1) as (st2 & Hst2 & Hs2 & Hr2); [done|by rewrite Hl1|done|].
    exists st2. rewrite Hst2. simpl. auto.
Qed.

Lemma close_open_frames_witness :
  ∃ st', load [(SequenceEnd, mkMarker 20 3 0); (MappingEnd, mkMarker 20 3 0)]
           (mkMarkedYaml ∅ None
              [(Some (mkLabel "c" (Some (mkMarker 5 2 0))), Value.Sequence [] (mkMarker 8 3 2), 0);
               (None, Value.Mapping None [] (mkMarker 0 1 0), 0)] None) = Returned (st', []) ∧
    object_stack st' = [] ∧ is_Some (root st').
Proof.
  apply close_open_frames; [|reflexivity|done].
  constructor; [by left|]. constructor; [by right|]. constructor.
Defined.
