(* ===== verification/Pointer.v ===== *)
(** * The pointer navigator: [MarkedYaml::get_element]

    A JSON pointer of the schema validator is a list of path chunks;
    [get_element] walks it from the root, one [match] per chunk, as the
    [for] loop of the source does.  [lookup_path] is the reference
    descent, which stops at the first miss. *)

From S2P Require Import Prelude IndexMap Value MarkedYaml.

(** [jsonschema::paths::PathChunk]. *)
Inductive PathChunk : Type :=
| Property (p : string)
| Index (i : nat)
| Keyword (k : string).

(** [jsonschema::paths::JSONPointer]. *)
Definition JSONPointer : Type := list PathChunk.

(** The body of the loop of [get_element]: a property is looked up in a
    mapping with a fresh [Label::from], an index in a sequence
    ([Vec::get], [None] out of range); anything else gives [None]. *)
Definition get_step (current : option Value.t) (item : PathChunk) : option Value.t :=
  match current, item with
  | Some (Value.Mapping _ mapping _), Property value =>
      IndexMap.get (Label_from value) mapping
  | Some (Value.Sequence sequence _), Index idx => sequence !! idx
  | _, _ => None
  end.

(** [MarkedYaml::root]. *)
Definition MarkedYaml_root (st : MarkedYaml) : option Value.t := root st.

(** [MarkedYaml::get_element]. *)
Definition get_element (st : MarkedYaml) (pointer : JSONPointer) : option Value.t :=
  fold_left get_step pointer (MarkedYaml_root st).

(** The reference navigator: descend while the chunk fits the node. *)
Fixpoint lookup_path (p : JSONPointer) (v : Value.t) : option Value.t :=
  match p with
  | [] => Some v
  | Property k :: p' =>
      match v with
      | Value.Mapping _ es _ => IndexMap.get (Label_from k) es ≫= lookup_path p'
      | _ => None
      end
  | Index i :: p' =>
      match v with
      | Value.Sequence vs _ => vs !! i ≫= lookup_path p'
      | _ => None
      end
  | Keyword _ :: _ => None
  end.

(** A chunk that does not fit a node's kind. *)
Definition kind_mismatch (c : PathChunk) (v : Value.t) : bool :=
  match c, v with
  | Property _, Value.Mapping _ _ _ => false
  | Index _, Value.Sequence _ _ => false
  | _, _ => true
  end.

(** ** Lemmas *)

(** Once the walk has missed, it stays missed. *)
Lemma fold_get_step_None (p : JSONPointer) : fold_left get_step p None = None.
Proof. induction p; simpl; auto. Qed.

Lemma fold_get_step_Some (p : JSONPointer) (v : Value.t) :
  fold_left get_step p (Some v) = lookup_path p v.
Proof.
  revert v. induction p as [|c p IH]; intros v; [done|].
  destruct c, v; simpl; rewrite ?fold_get_step_None; try done.
  - destruct (IndexMap.get _ _); simpl; [apply IH|apply fold_get_step_None].
  - destruct (_ !! _); simpl; [apply IH|apply fold_get_step_None].
Qed.

Lemma lookup_path_app (p q : JSONPointer) (v : Value.t) :
  lookup_path (p ++ q) v = lookup_path p v ≫= lookup_path q.
Proof.
  revert v. induction p as [|c p IH]; intros v; [done|].
  destruct c, v; simpl; try done.
  - destruct (IndexMap.get _ _); simpl; [apply IH|done].
  - destruct (_ !! _); simpl; [apply IH|done].
Qed.

(** ** Theorems *)

(** C9: [get_element] equals the reference descent from the root: the
    loop, which keeps running after a miss, returns what a walk that stops
    at the first miss returns.  In particular the empty pointer gives the
    root. *)
Theorem get_element_spec (st : MarkedYaml) (p : JSONPointer) :
  get_element st p = root st ≫= lookup_path p.
Proof.
  unfold get_element, MarkedYaml_root. destruct (root st) as [v|]; simpl.
  - apply fold_get_step_Some.
  - apply fold_get_step_None.
Qed.

(** C10: Whenever a chunk of the pointer does not fit the kind of the node
    reached so far (a property on a non-mapping, an index on a
    non-sequence, or a keyword chunk), [get_element] finds nothing, however
    the pointer continues. *)
Theorem get_element_kind_mismatch (st : MarkedYaml) (p q : JSONPointer)
    (c : PathChunk) (w : Value.t) :
  get_element st p = Some w → kind_mismatch c w = true →
  get_element st (p ++ c :: q) = None.
Proof.
  unfold get_element, MarkedYaml_root. destruct (root st) as [v|];
    [rewrite !fold_get_step_Some|by rewrite fold_get_step_None].
  intros Hp Hk. rewrite lookup_path_app, Hp. simpl.
  destruct c, w; simpl in *; done.
Qed.

Lemma get_element_kind_mismatch_witness :
  get_element (mkMarkedYaml ∅ None []
                 (Some (Value.Sequence [Value.String "d" (mkMarker 4 2 2)] (mkMarker 0 1 0))))
              [Index 0; Property "x"] = None.
Proof.
  apply (get_element_kind_mismatch _ [Index 0] [] (Property "x")
           (Value.String "d" (mkMarker 4 2 2))); reflexivity.
Defined.

(** C11: A property is found by name alone: the key stored in the mapping
    may carry any marker, the fresh [Label::from] the lookup builds has
    none, and any label of the same name finds the same entry. *)
Theorem get_step_label_marker_irrelevant (l : option Label)
    (es : list (Label * Value.t)) (m : Marker) (k : Label) :
  get_step (Some (Value.Mapping l es m)) (Property (name k)) = IndexMap.get k es.
Proof. simpl. apply IndexMap.get_proper; done. Qed.
