(* ===== verification/Roundtrip.v ===== *)
(** * Round trip: the builder rebuilds the tree whose events it is fed

    [emit_with id v] is the event stream yaml_rust produces for the tree
    [v] whose root node carries the anchor id [id] and whose other nodes
    are unanchored (id 0, the parser's "no anchor"): a start event, the
    children (for a mapping, each key as a plain scalar at its marker
    followed by its value), an end event; [emit v] anchors nothing.
    [canon] says which trees the builder can produce at all: a mapping
    carries as its own label the key it is bound to (none at the root or in
    a sequence), its keys carry markers and have unique names.  A mapping
    whose source repeats a key loads as the entries inserted in order
    ([IndexMap.extend]). *)

From S2P Require Import Prelude IndexMap Value MarkedYaml Pointer.

Definition scalar_event (s : string) (id : nat) (m : Marker) : Event * Marker :=
  (Scalar s Plain id None, m).

(** The events of [v], its root node carrying the anchor id [id]. *)
Fixpoint emit_with (id : nat) (v : Value.t) : list (Event * Marker) :=
  match v with
  | Value.String s m => [scalar_event s id m]
  | Value.Sequence vs m =>
      (SequenceStart id, m) :: concat (map (emit_with 0) vs) ++ [(SequenceEnd, m)]
  | Value.Mapping _ es m =>
      (MappingStart id, m) ::
        concat (map (λ e, scalar_event (name e.1) 0 (default m (marker e.1)) :: emit_with 0 e.2) es)
        ++ [(MappingEnd, m)]
  end.

Definition emit (v : Value.t) : list (Event * Marker) := emit_with 0 v.

(** The whole stream of a one-document file. *)
Definition emit_document (v : Value.t) : list (Event * Marker) :=
  let m := Value.marker_of v in
  (StreamStart, m) :: (DocumentStart, m) :: emit v ++ [(DocumentEnd, m); (StreamEnd, m)].

Fixpoint canon (ctx : option Label) (v : Value.t) : Prop :=
  match v with
  | Value.String _ _ => True
  | Value.Sequence vs _ => all_list (canon None) vs
  | Value.Mapping self es _ =>
      self = ctx ∧ IndexMap.keys_unique es ∧
      all_list (λ e, is_Some (marker e.1) ∧ canon (Some e.1) e.2) es
  end.

Definition is_container (v : Value.t) : bool :=
  match v with Value.String _ _ => false | _ => true end.

(** A small mapping document, for witnesses. *)
Definition sample_tree : Value.t :=
  Value.Mapping None
    [(mkLabel "a" (Some (mkMarker 0 1 0)), Value.String "4" (mkMarker 3 1 3));
     (mkLabel "c" (Some (mkMarker 5 2 0)),
      Value.Sequence [Value.String "d" (mkMarker 10 3 4)] (mkMarker 8 3 2))]
    (mkMarker 0 1 0).

(** ** Lemmas *)

Lemma canon_Sequence (ctx : option Label) (vs : list Value.t) (m : Marker) :
  canon ctx (Value.Sequence vs m) ↔ Forall (canon None) vs.
Proof. apply all_list_Forall. Qed.

Lemma canon_Mapping (ctx self : option Label) (es : list (Label * Value.t)) (m : Marker) :
  canon ctx (Value.Mapping self es m) ↔
  self = ctx ∧ IndexMap.keys_unique es ∧
  Forall (λ e, is_Some (marker e.1) ∧ canon (Some e.1) e.2) es.
Proof. simpl. by rewrite all_list_Forall. Qed.

Lemma MarkedYaml_eta (st : MarkedYaml) :
  mkMarkedYaml (anchors st) (current_label st) (object_stack st) (root st) = st.
Proof. by destruct st. Qed.

(** Closing a frame: the value is recorded under the frame's anchor id,
    then attached to the new top, or becomes the root. *)
Lemma load_end_frame (ev : Event) (m : Marker) (cl : option Label) (v : Value.t)
    (id : nat) (stk : list Frame) (anc : gmap nat Value.t) (r : option Value.t) :
  ev = SequenceEnd ∨ ev = MappingEnd →
  load [(ev, m)] (mkMarkedYaml anc None ((cl, v, id) :: stk) r) =
  Returned (mkMarkedYaml (<[id := v]> anc) None (default stk (attach cl v stk))
              (match attach cl v stk with Some _ => None | None => Some v end), []).
Proof.
  intros [-> | ->]; simpl; unfold end_container; simpl;
    by destruct (attach cl v stk).
Qed.

(** What feeding [emit_with id v] to a state does: the value is attached
    (or becomes the root), recorded under [id], and no other anchor but 0
    changes. *)
Definition emit_ok (v : Value.t) : Prop :=
  ∀ id st, canon (current_label st) v →
  is_container v = true ∨ is_Some (attach (current_label st) v (object_stack st)) →
  ∃ anc r,
    load (emit_with id v) st =
      Returned (mkMarkedYaml anc None
                  (default (object_stack st) (attach (current_label st) v (object_stack st)))
                  r, []) ∧
    (attach (current_label st) v (object_stack st) = None → r = Some v) ∧
    anc !! id = Some v ∧ (∀ j, j ≠ 0 → j ≠ id → anc !! j = anchors st !! j).

(** The items of a sequence, fed one after the other, are appended to the
    sequence on top of the stack; only anchor 0 changes. *)
Lemma load_emit_items (vs : list Value.t) :
  Forall emit_ok vs →
  ∀ st cl acc mk fid rest,
  current_label st = None →
  object_stack st = (cl, Value.Sequence acc mk, fid) :: rest →
  Forall (canon None) vs →
  ∃ anc r, load (concat (map (emit_with 0) vs)) st =
    Returned (mkMarkedYaml anc None ((cl, Value.Sequence (acc ++ vs) mk, fid) :: rest) r, []) ∧
    ∀ j, j ≠ 0 → anc !! j = anchors st !! j.
Proof.
  induction 1 as [|x vs Hx Hvs IH]; intros st cl acc mk fid rest Hl Hs Hc.
  - exists (anchors st), (root st). simpl. rewrite app_nil_r, <- Hl, <- Hs.
    by rewrite MarkedYaml_eta.
  - apply Forall_cons in Hc as [Hcx Hc]. simpl. rewrite load_app.
    destruct (Hx 0 st) as (anc1 & r1 & Hload & _ & _ & Hp1);
      [by rewrite Hl|rewrite Hl, Hs; by right|].
    rewrite Hload. rewrite Hl, Hs in *. simpl.
    destruct (IH (mkMarkedYaml anc1 None ((cl, Value.Sequence (acc ++ [x]) mk, fid) :: rest) r1)
                cl (acc ++ [x]) mk fid rest) as (anc2 & r2 & Hload2 & Hp2); try done.
    exists anc2, r2. rewrite Hload2, <- app_assoc. split; [done|].
    intros j Hj. rewrite Hp2 by done. simpl. by apply Hp1.
Qed.

(** The entries of a mapping, each a key scalar followed by the value's
    events, are inserted in order into the mapping on top of the stack
    ([IndexMap::extend]: a key given again keeps its first place and takes
    the later value); only anchor 0 changes. *)
Lemma load_emit_entries (es : list (Label * Value.t)) :
  Forall (λ e, emit_ok e.2) es →
  ∀ st cl acc mk fid rest,
  current_label st = None →
  object_stack st = (cl, Value.Mapping cl acc mk, fid) :: rest →
  Forall (λ e, is_Some (marker e.1) ∧ canon (Some e.1) e.2) es →
  ∃ anc r, load (concat (map (λ e, scalar_event (name e.1) 0 (default mk (marker e.1))
                                   :: emit_with 0 e.2) es)) st =
    Returned (mkMarkedYaml anc None
                ((cl, Value.Mapping cl (IndexMap.extend acc es) mk, fid) :: rest) r, []) ∧
    ∀ j, j ≠ 0 → anc !! j = anchors st !! j.
Proof.
  induction 1 as [|[k x] es Hx Hes IH]; intros st cl acc mk fid rest Hl Hs Hc.
  - exists (anchors st), (root st). simpl. rewrite <- Hl, <- Hs.
    by rewrite MarkedYaml_eta.
  - apply Forall_cons in Hc as [[[km Hkm] Hcx] Hc]. simpl in Hcx, Hkm.
    assert (Hk : mkLabel (name k) (Some km) = k) by (destruct k; simpl in *; by subst).
    set (st1 := mkMarkedYaml (anchors st) (Some k) ((cl, Value.Mapping cl acc mk, fid) :: rest) (root st)).
    assert (Hkey : on_event (Scalar (name k) Plain 0 None) km st = Returned (st1, [])).
    { simpl. unfold add_value. rewrite Hl, Hs. simpl. by rewrite Hk. }
    destruct (Hx 0 st1) as (anc1 & r1 & Hload & _ & _ & Hp1); [done|by right|].
    simpl in Hload.
    destruct (IH (mkMarkedYaml anc1 None
                    ((cl, Value.Mapping cl (IndexMap.insert k x acc) mk, fid) :: rest) r1)
                cl (IndexMap.insert k x acc) mk fid rest) as (anc2 & r2 & Hload2 & Hp2); try done.
    exists anc2, r2. cbn [map concat]. rewrite <- app_comm_cons.
    cbn [load scalar_event fst snd]. rewrite Hkm. simpl (default _ _). rewrite Hkey.
    simpl. rewrite load_app, Hload. simpl. rewrite Hload2. split; [done|].
    intros j Hj. rewrite Hp2 by done. simpl. by apply Hp1.
Qed.

(** Feeding the events of a mapping whose values the builder can produce:
    the new frame takes the pending key, the entries are inserted in order,
    and the end event records the mapping under [id] and attaches it or
    makes it the root. *)
Lemma load_emit_mapping (self : option Label) (es : list (Label * Value.t)) (m : Marker)
    (id : nat) (st : MarkedYaml) :
  Forall (λ e, emit_ok e.2) es →
  Forall (λ e, is_Some (marker e.1) ∧ canon (Some e.1) e.2) es →
  ∃ anc1, (∀ j, j ≠ 0 → anc1 !! j = anchors st !! j) ∧
    load (emit_with id (Value.Mapping self es m)) st =
    Returned (mkMarkedYaml
      (<[id := Value.Mapping (current_label st) (IndexMap.extend IndexMap.new es) m]> anc1) None
      (default (object_stack st)
         (attach (current_label st) (Value.Mapping (current_label st) (IndexMap.extend IndexMap.new es) m)
            (object_stack st)))
      (match attach (current_label st) (Value.Mapping (current_label st) (IndexMap.extend IndexMap.new es) m)
               (object_stack st) with Some _ => None | None => Some (Value.Mapping (current_label st) (IndexMap.extend IndexMap.new es) m) end), []).
Proof.
  intros Hok Hc.
  destruct (load_emit_entries es Hok
              (mkMarkedYaml (anchors st) None
                 ((current_label st, Value.Mapping (current_label st) IndexMap.new m, id)
                    :: object_stack st) (root st))
              (current_label st) IndexMap.new m id (object_stack st)) as (anc1 & r1 & Hload & Hp);
    try done.
  exists anc1. split; [done|]. simpl. rewrite load_app, Hload, outcome_bind_Returned.
  cbv beta iota. by rewrite load_end_frame by (by right).
Qed.

(** The anchor table after closing a container. *)
Lemma anchors_close (v : Value.t) (id : nat) (anc0 anc1 : gmap nat Value.t) :
  (∀ j, j ≠ 0 → anc1 !! j = anc0 !! j) →
  <[id := v]> anc1 !! id = Some v ∧
  ∀ j, j ≠ 0 → j ≠ id → <[id := v]> anc1 !! j = anc0 !! j.
Proof.
  intros Hp. split; [apply lookup_insert_eq|].
  intros j Hj Hjid. rewrite lookup_insert_ne by done. by apply Hp.
Qed.

Lemma emit_ok_all (v : Value.t) : emit_ok v.
Proof.
  induction v as [s m|vs m IH|self es m IH] using Value.t_ind; intros id st Hc Hat.
  - destruct Hat as [Hat|[stk' Hat]]; [discriminate|].
    exists (<[id := Value.String s m]> (anchors st)), (root st).
    assert (Hadd : add_value m s id st =
      (mkMarkedYaml (<[id := Value.String s m]> (anchors st)) None stk' (root st), []))
      by (unfold add_value; by rewrite Hat).
    simpl. rewrite Hadd. simpl. rewrite Hat. split; [done|]. split; [discriminate|].
    by apply anchors_close.
  - apply canon_Sequence in Hc.
    destruct (load_emit_items vs IH
                (mkMarkedYaml (anchors st) None
                   ((current_label st, Value.Sequence [] m, id) :: object_stack st) (root st))
                (current_label st) [] m id (object_stack st)) as (anc1 & r1 & Hload & Hp);
      try done.
    eexists _, _. simpl. rewrite load_app, Hload, outcome_bind_Returned.
    cbv beta iota. rewrite (load_end_frame SequenceEnd m _ (Value.Sequence vs m)); [|by left].
    simpl. split; [done|]. split; [intros ->; done|]. by apply anchors_close.
  - apply canon_Mapping in Hc as (-> & Hu & Hc).
    destruct (load_emit_mapping (current_label st) es m id st IH Hc) as (anc1 & Hp & Hload).
    rewrite IndexMap.extend_fresh in Hload by done. change (IndexMap.new ++ es) with es in Hload.
    eexists _, _. rewrite Hload. split; [done|]. split; [intros ->; done|]. by apply anchors_close.
Qed.

(** The round trip from any state with no open frame and no pending key:
    the anchors and the root it started with do not matter. *)
Lemma load_emit_document_from (v : Value.t) (st : MarkedYaml) :
  canon None v → is_container v = true →
  current_label st = None → object_stack st = [] →
  ∃ anc, load (emit_document v) st = Returned (mkMarkedYaml anc None [] (Some v), []).
Proof.
  intros Hc Hv Hl Hs. rewrite <- Hl in Hc.
  destruct (emit_ok_all v 0 st Hc (or_introl Hv)) as (anc & r & Hload & Hr & _).
  rewrite Hl, Hs in Hload, Hr. simpl in Hload, Hr. rewrite Hr in Hload by (by destruct v).
  exists anc. unfold emit_document, emit. cbn [load]. simpl on_event.
  autorewrite with yaml_rw. cbv beta iota.
  rewrite load_app, Hload. simpl. destruct v; simpl in *; done.
Qed.

(** C1: Round trip.  Feeding the builder, from [MarkedYaml::default()],
    the event stream of a one-document file whose tree [v] is a sequence or
    a mapping the builder can produce ([canon]) rebuilds exactly [v] as the
    root, markers included, with an empty object stack, no pending key and
    no warning: shape, key order, scalar text and positions are those of
    the source. *)
Theorem load_emit_document (v : Value.t) :
  canon None v → is_container v = true →
  ∃ anc, load (emit_document v) MarkedYaml_default =
           Returned (mkMarkedYaml anc None [] (Some v), []).
Proof. intros Hc Hv. by apply load_emit_document_from. Qed.

Lemma load_emit_document_witness :
  ∃ anc, load (emit_document sample_tree) MarkedYaml_default =
           Returned (mkMarkedYaml anc None [] (Some sample_tree), []).
Proof.
  apply load_emit_document; [|reflexivity].
  apply canon_Mapping. split; [done|]. split.
  - simpl. split; [reflexivity|done].
  - repeat constructor; simpl; eauto.
Defined.

(** C2: After loading such a document, [get_element] finds along any
    pointer exactly the node the pointer names in [v]: the navigator and the
    builder together turn a validator path into the node of the source, and
    so into its position. *)
Theorem get_element_after_load (v : Value.t) (p : JSONPointer) :
  canon None v → is_container v = true →
  ∃ st, load (emit_document v) MarkedYaml_default = Returned (st, []) ∧
        get_element st p = lookup_path p v.
Proof.
  intros Hc Hv. destruct (load_emit_document_from v MarkedYaml_default Hc Hv)
    as [anc Hload]; [done|done|].
  eexists. split; [exact Hload|]. apply fold_get_step_Some.
Qed.

Lemma get_element_after_load_witness :
  ∃ st, load (emit_document sample_tree) MarkedYaml_default = Returned (st, []) ∧
        get_element st [Property "c"; Index 0] = Some (Value.String "d" (mkMarker 10 3 4)).
Proof.
  apply (get_element_after_load sample_tree [Property "c"; Index 0]); [|reflexivity].
  apply canon_Mapping. split; [done|]. split.
  - simpl. split; [reflexivity|done].
  - repeat constructor; simpl; eauto.
Defined.

(** C16: A document whose root is a scalar has no root: the scalar, read
    with no open container, is taken as a pending mapping key, so
    [get_element] finds nothing even for the empty pointer.  The spec
    promises the root for any non-empty document. *)
Theorem scalar_document_has_no_root (s : string) (m : Marker) :
  load (emit_document (Value.String s m)) MarkedYaml_default =
    Returned (mkMarkedYaml ∅ (Some (mkLabel s (Some m))) [] None, []) ∧
  get_element (mkMarkedYaml ∅ (Some (mkLabel s (Some m))) [] None) [] = None.
Proof. split; reflexivity. Qed.

(** C23: Anchors and aliases round trip.  A sequence whose first item is
    any tree the builder can produce, anchored with any id, and whose second
    item is an alias to that id, is rebuilt as the sequence of two equal
    copies: the alias's copy is the anchored value itself, markers included
    (the alias's own marker is not used). *)
Theorem load_anchor_alias_sequence (v : Value.t) (aid : nat) (m0 ma : Marker) :
  canon None v →
  ∃ anc, load ((SequenceStart 0, m0) :: emit_with aid v ++ [(Alias aid, ma); (SequenceEnd, m0)])
              MarkedYaml_default =
         Returned (mkMarkedYaml anc None [] (Some (Value.Sequence [v; v] m0)), []).
Proof.
  intros Hc. set (st1 := mkMarkedYaml ∅ None [(None, Value.Sequence [] m0, 0)] None).
  destruct (emit_ok_all v aid st1 Hc (or_intror (mk_is_Some _ _ eq_refl)))
    as (anc & r & Hload & _ & Ha & _).
  change (load ((SequenceStart 0, m0) :: emit_with aid v ++ [(Alias aid, ma); (SequenceEnd, m0)])
            MarkedYaml_default) with
    ('(s1, w1) ← Returned (st1, []);
     '(s2, w2) ← load (emit_with aid v ++ [(Alias aid, ma); (SequenceEnd, m0)]) s1;
     mret (s2, w1 ++ w2)).
  rewrite outcome_bind_Returned. cbv beta iota. rewrite load_app, Hload.
  simpl. rewrite Ha. simpl. eexists. reflexivity.
Qed.

Lemma load_anchor_alias_sequence_witness :
  ∃ anc, load ((SequenceStart 0, mkMarker 0 1 0)
                 :: emit_with 1 (Value.String "d" (mkMarker 7 1 7))
                 ++ [(Alias 1, mkMarker 12 2 2); (SequenceEnd, mkMarker 0 1 0)])
              MarkedYaml_default =
         Returned (mkMarkedYaml anc None []
                     (Some (Value.Sequence [Value.String "d" (mkMarker 7 1 7);
                                            Value.String "d" (mkMarker 7 1 7)] (mkMarker 0 1 0))), []).
Proof. apply load_anchor_alias_sequence. simpl. done. Defined.

(** C12: An alias in a mapping is a copy of its anchor, markers included
    (spec, section 8, the worked example in general form).  Loading the
    mapping [n1: &aid v, n2: *aid], for any tree [v] the builder produces
    under [n1] and any two different key names, rebuilds both entries
    with the same value: looking up [n2] finds [v] with the positions of
    the anchored text under [n1], not of the alias. *)
Theorem load_anchor_alias_mapping (n1 n2 : string) (km1 km2 : Marker) (v : Value.t)
    (aid : nat) (m0 ma : Marker) :
  n1 ≠ n2 → canon (Some (mkLabel n1 (Some km1))) v →
  ∃ st, load ((MappingStart 0, m0) :: scalar_event n1 0 km1 :: emit_with aid v ++
              [scalar_event n2 0 km2; (Alias aid, ma); (MappingEnd, m0)]) MarkedYaml_default =
          Returned (st, []) ∧
    MarkedYaml_root st =
      Some (Value.Mapping None [(mkLabel n1 (Some km1), v); (mkLabel n2 (Some km2), v)] m0) ∧
    get_element st [Property n2] = Some v.
Proof.
  intros Hn Hc.
  set (st2 := mkMarkedYaml ∅ (Some (mkLabel n1 (Some km1))) [(None, Value.Mapping None [] m0, 0)] None).
  destruct (emit_ok_all v aid st2 Hc (or_intror (mk_is_Some _ _ eq_refl)))
    as (anc & r & Hload & _ & Ha & _).
  assert (Hpre : load [(MappingStart 0, m0); scalar_event n1 0 km1] MarkedYaml_default =
                 Returned (st2, [])) by reflexivity.
  change ((MappingStart 0, m0) :: scalar_event n1 0 km1 :: emit_with aid v ++
            [scalar_event n2 0 km2; (Alias aid, ma); (MappingEnd, m0)]) with
    ([(MappingStart 0, m0); scalar_event n1 0 km1] ++ emit_with aid v ++
       [scalar_event n2 0 km2; (Alias aid, ma); (MappingEnd, m0)]).
  rewrite load_app, Hpre, outcome_bind_Returned. cbv beta iota.
  rewrite load_app, Hload, outcome_bind_Returned. cbv beta iota. simpl. rewrite Ha. simpl.
  unfold add_alias_value. simpl.
  rewrite decide_False by (unfold equiv, Label_equiv; simpl; congruence).
  eexists. split; [reflexivity|]. split; [reflexivity|].
  unfold get_element, MarkedYaml_root. simpl.
  rewrite decide_False by (unfold equiv, Label_equiv; simpl; congruence).
  by rewrite decide_True.
Qed.

Lemma load_anchor_alias_mapping_witness :
  ∃ st, load ((MappingStart 0, mkMarker 0 1 0) :: scalar_event "c" 0 (mkMarker 0 1 0)
                :: emit_with 1 (Value.Sequence [Value.String "d" (mkMarker 14 2 4)] (mkMarker 12 2 2))
                ++ [scalar_event "l" 0 (mkMarker 16 3 0); (Alias 1, mkMarker 19 3 3);
                    (MappingEnd, mkMarker 0 1 0)]) MarkedYaml_default =
          Returned (st, []) ∧
    MarkedYaml_root st =
      Some (Value.Mapping None
              [(mkLabel "c" (Some (mkMarker 0 1 0)),
                Value.Sequence [Value.String "d" (mkMarker 14 2 4)] (mkMarker 12 2 2));
               (mkLabel "l" (Some (mkMarker 16 3 0)),
                Value.Sequence [Value.String "d" (mkMarker 14 2 4)] (mkMarker 12 2 2))]
              (mkMarker 0 1 0)) ∧
    get_element st [Property "l"] =
      Some (Value.Sequence [Value.String "d" (mkMarker 14 2 4)] (mkMarker 12 2 2)).
Proof. apply load_anchor_alias_mapping; [done|]. simpl. auto. Defined.

(** C14: A mapping key that is not a scalar loses its entry (any sequence
    or mapping the builder produces, in key position in any mapping with
    no pending key): the container ends with no label over a mapping, so
    it cannot be attached and becomes the root; the mapping is unchanged,
    and the scalar that was its value is read as the next key. *)
Theorem container_key_drops_entry (v : Value.t) (id : nat) (s : string)
    (sty : TScalarStyle) (sid : nat) (tag : option Tag) (sm : Marker) (st : MarkedYaml)
    (fl cl : option Label) (es : list (Label * Value.t)) (mk : Marker) (fid : nat)
    (rest : list Frame) :
  canon None v → is_container v = true →
  current_label st = None → object_stack st = (fl, Value.Mapping cl es mk, fid) :: rest →
  ∃ anc, load (emit_with id v ++ [(Scalar s sty sid tag, sm)]) st =
    Returned (mkMarkedYaml anc (Some (mkLabel s (Some sm)))
                ((fl, Value.Mapping cl es mk, fid) :: rest) (Some v), []).
Proof.
  intros Hc Hv Hl Hs. rewrite <- Hl in Hc.
  destruct (emit_ok_all v id st Hc (or_introl Hv)) as (anc & r & Hload & Hr & _).
  rewrite Hl, Hs in Hload, Hr. simpl in Hload, Hr. rewrite Hr in Hload by done.
  exists anc. rewrite load_app, Hload. simpl. unfold add_value. simpl. done.
Qed.

Lemma container_key_drops_entry_witness :
  ∃ anc, load (emit_with 0 (Value.Sequence [Value.String "a" (mkMarker 4 1 4)] (mkMarker 2 1 2))
               ++ [(Scalar "b" Plain 0 None, mkMarker 9 1 9)])
              (mkMarkedYaml ∅ None [(None, Value.Mapping None [] (mkMarker 0 1 0), 0)] None) =
    Returned (mkMarkedYaml anc (Some (mkLabel "b" (Some (mkMarker 9 1 9))))
                [(None, Value.Mapping None [] (mkMarker 0 1 0), 0)]
                (Some (Value.Sequence [Value.String "a" (mkMarker 4 1 4)] (mkMarker 2 1 2))), []).
Proof. apply container_key_drops_entry; done. Defined.

(** C26: Key order is first-occurrence order (spec, section 8).  Loading a
    one-document mapping whose entries may give a key more than once, the
    values being trees the builder produces, yields as root the mapping
    [IndexMap::extend] builds from the entries in source order, with no
    warning; that mapping implements the abstract ordered map obtained by
    inserting the entries one by one: its keys are unique by name, in the
    order of their first occurrence, and each key holds the value of its
    last occurrence. *)
Theorem load_mapping_first_occurrence (es : list (Label * Value.t)) (m : Marker) :
  Forall (λ e, is_Some (marker e.1) ∧ canon (Some e.1) e.2) es →
  ∃ anc, load (emit_document (Value.Mapping None es m)) MarkedYaml_default =
      Returned (mkMarkedYaml anc None []
                  (Some (Value.Mapping None (IndexMap.extend IndexMap.new es) m)), []) ∧
    IndexMap.refines (IndexMap.extend IndexMap.new es)
      (foldl (λ a e, IndexMap.spec_insert e.1 e.2 a) IndexMap.spec_empty es).
Proof.
  intros Hc. destruct (load_emit_mapping None es m 0 MarkedYaml_default) as (anc1 & _ & Hload);
    [apply Forall_forall; intros; apply emit_ok_all|done|].
  eexists. split; [|apply IndexMap.extend_refines, IndexMap.new_refines].
  unfold emit_document, emit. cbn [load]. simpl on_event.
  autorewrite with yaml_rw. cbv beta iota. rewrite load_app, Hload. done.
Qed.

Lemma load_mapping_first_occurrence_witness :
  ∃ anc, load (emit_document (Value.Mapping None
             [(mkLabel "a" (Some (mkMarker 0 1 0)), Value.String "1" (mkMarker 3 1 3));
              (mkLabel "b" (Some (mkMarker 5 2 0)), Value.String "2" (mkMarker 8 2 3));
              (mkLabel "a" (Some (mkMarker 10 3 0)), Value.String "3" (mkMarker 13 3 3))]
             (mkMarker 0 1 0))) MarkedYaml_default =
      Returned (mkMarkedYaml anc None []
                  (Some (Value.Mapping None
                     [(mkLabel "a" (Some (mkMarker 0 1 0)), Value.String "3" (mkMarker 13 3 3));
                      (mkLabel "b" (Some (mkMarker 5 2 0)), Value.String "2" (mkMarker 8 2 3))]
                     (mkMarker 0 1 0))), []) ∧
    IndexMap.refines
      [(mkLabel "a" (Some (mkMarker 0 1 0)), Value.String "3" (mkMarker 13 3 3));
       (mkLabel "b" (Some (mkMarker 5 2 0)), Value.String "2" (mkMarker 8 2 3))]
      (foldl (λ a e, IndexMap.spec_insert e.1 e.2 a) IndexMap.spec_empty
         [(mkLabel "a" (Some (mkMarker 0 1 0)), Value.String "1" (mkMarker 3 1 3));
          (mkLabel "b" (Some (mkMarker 5 2 0)), Value.String "2" (mkMarker 8 2 3));
          (mkLabel "a" (Some (mkMarker 10 3 0)), Value.String "3" (mkMarker 13 3 3))]).
Proof. apply load_mapping_first_occurrence. repeat constructor; simpl; eauto. Defined.

