(* ===== verification/Scenario.v ===== *)
(** * Behaviours on concrete event streams

    The spec's worked example (the test document of yaml.rs, without the
    lines the spec leaves out), as yaml_rust streams it, the whole document
    of that test with the root the test snapshots, and the event
    sequences on which the builder departs from what the spec promises:
    an alias to an anchor not yet closed, a document whose root is a
    scalar, and a mapping key that is not a scalar.  These are evaluations
    of the model on fixed inputs, kept as lemmas beside the general
    theorems they instantiate (in [MarkedYaml] and [Roundtrip]). *)

From S2P Require Import Prelude IndexMap Value MarkedYaml Pointer.

Definition mk (i l c : nat) : Marker := mkMarker i l c.

Definition sc (s : string) (i l c : nat) : Event * Marker :=
  (Scalar s Plain 0 None, mk i l c).

(** [test:\n  a: 4\n  c: &id001\n    - d\n    - e\n  l: *id001\n] *)
Definition spec_example : list (Event * Marker) :=
  [(StreamStart, mk 0 1 0); (DocumentStart, mk 0 1 0);
   (MappingStart 0, mk 0 1 0); sc "test" 0 1 0;
   (MappingStart 0, mk 8 2 2); sc "a" 8 2 2; sc "4" 11 2 5;
   sc "c" 15 3 2; (SequenceStart 1, mk 25 4 4); sc "d" 31 4 6; sc "e" 39 5 6;
   (SequenceEnd, mk 41 6 2); sc "l" 43 6 2; (Alias 1, mk 46 6 5);
   (MappingEnd, mk 53 7 0); (MappingEnd, mk 53 7 0);
   (DocumentEnd, mk 53 7 0); (StreamEnd, mk 53 7 0)].

(** [x: &a {b: *a, c: d}]: yaml_rust numbers the anchor when it reads it,
    so the alias inside the mapping it anchors gets its id, but the
    builder records a container under its id only when the container
    ends. *)
Definition self_alias_example : list (Event * Marker) :=
  [(StreamStart, mk 0 1 0); (DocumentStart, mk 0 1 0);
   (MappingStart 0, mk 0 1 0); sc "x" 0 1 0;
   (MappingStart 1, mk 6 1 6); sc "b" 7 1 7; (Alias 1, mk 10 1 10);
   sc "c" 14 1 14; sc "d" 17 1 17;
   (MappingEnd, mk 18 1 18); (MappingEnd, mk 19 2 0);
   (DocumentEnd, mk 19 2 0); (StreamEnd, mk 19 2 0)].

(** [? [k]\n: v\n]: a mapping whose only key is a sequence. *)
Definition complex_key_example : list (Event * Marker) :=
  [(StreamStart, mk 0 1 0); (DocumentStart, mk 0 1 0);
   (MappingStart 0, mk 0 1 0); (SequenceStart 0, mk 2 1 2); sc "k" 3 1 3;
   (SequenceEnd, mk 4 1 4); sc "v" 8 2 2;
   (MappingEnd, mk 10 3 0); (DocumentEnd, mk 10 3 0); (StreamEnd, mk 10 3 0)].

(** The document of the [test] in yaml.rs (lines 199-211): [b]'s value
    has trailing blanks, [c]'s value is an indentless sequence anchored as
    [&id001] (anchor id 1, yaml_rust numbering anchors from 1), and [l] is an
    alias to it.  Each event carries the marker of the token that starts
    the node: a block mapping starts at its first key, a block sequence at
    its first [-]. *)
Definition yaml_test_events : list (Event * Marker) :=
  [(StreamStart, mk 0 1 0); (DocumentStart, mk 0 1 0);
   (MappingStart 0, mk 0 1 0); sc "test" 0 1 0;
   (MappingStart 0, mk 8 2 2); sc "a" 8 2 2; sc "4" 11 2 5;
   sc "b" 15 3 2; sc "3" 18 3 5;
   sc "c" 29 4 2; (SequenceStart 1, mk 41 5 2); sc "d" 43 5 4; sc "e" 49 6 4;
   (MappingStart 0, mk 55 7 4); sc "f" 55 7 4;
   (SequenceStart 0, mk 63 8 5); sc "g" 65 8 7;
   (MappingStart 0, mk 74 9 7); sc "h" 74 9 7;
   (MappingStart 0, mk 86 10 9); sc "i" 86 10 9; sc "k" 89 10 12;
   (MappingEnd, mk 94 11 2); (MappingEnd, mk 94 11 2); (SequenceEnd, mk 94 11 2);
   (MappingEnd, mk 94 11 2); (SequenceEnd, mk 94 11 2);
   sc "l" 94 11 2; (Alias 1, mk 97 11 5);
   (MappingEnd, mk 111 13 0); (MappingEnd, mk 111 13 0);
   (DocumentEnd, mk 111 13 0); (StreamEnd, mk 111 13 0)].

(** [test]: [parse(yaml).unwrap()] then [parsed.root().unwrap()]; the
    snapshot records this value. *)
Definition test : option Value.t :=
  match load yaml_test_events MarkedYaml_default with
  | Returned (st, _) => MarkedYaml_root st
  | Panicked _ => None
  end.

(** [a: 1\nb: 2\na: 3\n]: a key defined again on the last line. *)
Definition duplicate_key_example : list (Event * Marker) :=
  [(StreamStart, mk 0 1 0); (DocumentStart, mk 0 1 0);
   (MappingStart 0, mk 0 1 0); sc "a" 0 1 0; sc "1" 3 1 3;
   sc "b" 5 2 0; sc "2" 8 2 3; sc "a" 10 3 0; sc "3" 13 3 3;
   (MappingEnd, mk 15 4 0); (DocumentEnd, mk 15 4 0); (StreamEnd, mk 15 4 0)].

(** Two documents, "a: 1\n---\nb: 2\n": [parse] loads with [multi]
    set, so both documents' events reach the same loader. *)
Definition two_documents_example : list (Event * Marker) :=
  [(StreamStart, mk 0 1 0);
   (DocumentStart, mk 0 1 0); (MappingStart 0, mk 0 1 0); sc "a" 0 1 0; sc "1" 3 1 3;
   (MappingEnd, mk 5 2 0); (DocumentEnd, mk 5 2 0);
   (DocumentStart, mk 5 2 0); (MappingStart 0, mk 9 3 0); sc "b" 9 3 0; sc "2" 12 3 3;
   (MappingEnd, mk 14 4 0); (DocumentEnd, mk 14 4 0); (StreamEnd, mk 14 4 0)].

(** ** Evaluations *)

(** On the spec's example, loading returns with no warning; the alias
    [l: *id001] is bound to a copy of the sequence under [c], and
    [get_element(["test", "l", 0])] is the scalar "d" at the position of
    the "d" under [c] (line 4), not at the alias (line 6). *)
Lemma spec_example_alias_position :
  ∃ st, load spec_example MarkedYaml_default = Returned (st, []) ∧
    get_element st [Property "test"; Property "l"; Index 0] =
      Some (Value.String "d" (mk 31 4 6)) ∧
    get_element st [Property "test"; Property "c"; Index 0] =
      Some (Value.String "d" (mk 31 4 6)) ∧
    get_element st [Property "test"; Property "a"] = Some (Value.String "4" (mk 11 2 5)).
Proof. eexists. split; [vm_compute; reflexivity|]. vm_compute. auto. Qed.

(** An alias to the mapping that encloses it is unresolved when the
    builder meets it: the warning is logged, but the pending key [b] is not
    dropped, so the next scalar, the key [c], becomes [b]'s value, the value
    [d] is left as a pending key, and [c] is missing.  The spec says the
    entry of the unresolved alias is omitted and the rest of the mapping is
    kept. *)
Lemma self_alias_shifts_keys :
  ∃ st, load self_alias_example MarkedYaml_default = Returned (st, [UnresolvedAnchor]) ∧
    get_element st [Property "x"; Property "b"] = Some (Value.String "c" (mk 14 1 14)) ∧
    get_element st [Property "x"; Property "c"] = None ∧
    option_map name (current_label st) = Some "d".
Proof. eexists. split; [vm_compute; reflexivity|]. vm_compute. auto. Qed.

(** A mapping whose key is a sequence loses its entry: the key's
    sequence, having no label, cannot be attached to the mapping and is
    briefly the root; the value [v] is then read as a key and left
    pending; the document's root is an empty mapping. *)
Lemma complex_key_drops_entry :
  ∃ st, load complex_key_example MarkedYaml_default = Returned (st, []) ∧
    root st = Some (Value.Mapping None [] (mk 0 1 0)) ∧
    option_map name (current_label st) = Some "v".
Proof. eexists. split; [vm_compute; reflexivity|]. vm_compute. auto. Qed.

(** The [test] of yaml.rs: the document loads with no warning; the
    root is the one [test] returns; [b]'s value is "3" without the trailing
    blanks; the nested [i] is found under [c], item 2, [f], item 1, [h];
    [l] is a copy of [c], markers included.  As a copy, the alias node's end
    marker is [k]'s on line 10, inside the anchor's text and not at the
    alias on line 11. *)
Lemma yaml_test_snapshot :
  ∃ st, load yaml_test_events MarkedYaml_default = Returned (st, []) ∧
    test = MarkedYaml_root st ∧
    get_element st [Property "test"; Property "b"] = Some (Value.String "3" (mk 18 3 5)) ∧
    get_element st [Property "test"; Property "c"; Index 2; Property "f"; Index 1;
                    Property "h"; Property "i"] = Some (Value.String "k" (mk 89 10 12)) ∧
    get_element st [Property "test"; Property "l"] =
      get_element st [Property "test"; Property "c"] ∧
    option_map Value.end_marker (get_element st [Property "test"; Property "l"]) =
      Some (mk 89 10 12).
Proof. eexists. split; [vm_compute; reflexivity|]. vm_compute. auto 6. Qed.

(** When the last line of a mapping defines again a key of an
    earlier line, the entry keeps its first place, so the mapping's end
    marker is that of the value on the line before (line 2), not of the
    last line (line 3): the new value is stored, but in the old key's
    place. *)
Lemma duplicate_key_end_marker :
  ∃ st, load duplicate_key_example MarkedYaml_default = Returned (st, []) ∧
    get_element st [Property "a"] = Some (Value.String "3" (mk 13 3 3)) ∧
    option_map Value.end_marker (MarkedYaml_root st) = Some (mk 8 2 3).
Proof. eexists. split; [vm_compute; reflexivity|]. vm_compute. auto. Qed.

(** A stream of two documents loads without warning into one loader whose
    root is the last document's: the first document's keys are not found,
    though its values stay in the anchor table. *)
Lemma two_documents_last_root :
  ∃ st, load two_documents_example MarkedYaml_default = Returned (st, []) ∧
    MarkedYaml_root st =
      Some (Value.Mapping None [(mkLabel "b" (Some (mk 9 3 0)), Value.String "2" (mk 12 3 3))]
              (mk 9 3 0)) ∧
    get_element st [Property "a"] = None.
Proof. eexists. split; [vm_compute; reflexivity|]. vm_compute. auto. Qed.
