(* ===== verification/Parse.v ===== *)
(** * [configuration::yaml::parse]: from source text to a [MarkedYaml]

    [parse] removes carriage returns, runs yaml_rust's parser over the text
    and hands its events to a default [MarkedYaml]; a scan error becomes a
    [ConfigurationError::InvalidConfiguration].  The parser is the
    interface [EventSource]: the events it delivers before it stops, the
    error it stops with, and its promise that no end event comes without
    its start. *)

From Stdlib Require Import Ascii.
From S2P Require Import Prelude IndexMap Value MarkedYaml Roundtrip.

(** [ConfigurationError::InvalidConfiguration { message, error }], the only
    variant [parse] builds. *)
Inductive ConfigurationError : Type :=
| InvalidConfiguration (message : string) (error : string).

(** yaml_rust's [Parser] over a character stream, driven by [load]. *)
Class EventSource : Type := {
  (** the events delivered, in order, and the scan error that stopped the
      parser, if any *)
  scan : string → list (Event * Marker) * option string;
  (** yaml_rust never emits an end event without a matching start *)
  scan_balanced : ∀ s, balanced_from 0 (scan s).1 = true;
}.

(** [source.replace('\r', "")].  '\r' is one byte in UTF-8 and never part
    of a multi-byte character, so removing the byte removes the char. *)
Fixpoint strip_cr (s : string) : string :=
  match s with
  | EmptyString => EmptyString
  | String c s' => if Ascii.eqb c "013"%char then strip_cr s' else String c (strip_cr s')
  end.

Section Parse.
Context `{EventSource}.

(** [parse]: the loader sees every event delivered before a scan error;
    on an error its state is dropped and the error returned.  The
    warnings the loader logs are returned beside the result. *)
Definition parse (source : string) :
    outcome ((MarkedYaml + ConfigurationError) * list Warning) :=
  let source := strip_cr source in
  let '(evs, err) := scan source in
  '(loader, w) ← load evs MarkedYaml_default;
  match err with
  | Some e => mret (inr (InvalidConfiguration "could not parse yaml" e), w)
  | None => mret (inl loader, w)
  end.
End Parse.

(** ** Lemmas *)

Lemma strip_cr_idempotent (s : string) : strip_cr (strip_cr s) = strip_cr s.
Proof.
  induction s as [|c s IH]; [done|]. simpl.
  destruct (Ascii.eqb c "013"%char) eqn:Hc; [done|]. simpl. by rewrite Hc, IH.
Qed.

Lemma load_default_returns `{EventSource} (s : string) :
  ∃ r, load (scan s).1 MarkedYaml_default = Returned r.
Proof. apply load_balanced_returns. apply scan_balanced. Qed.

(** ** Theorems *)

(** [source.replace('\r', "")] removes exactly the carriage
    returns: the characters of the result are those of the source with
    every '\r' filtered out, in order; and carriage returns do not matter
    to [parse], which gives the same on a text and on the text without its
    '\r's, so positions are those of the stripped text. *)
Lemma strip_cr_spec `{EventSource} (s : string) :
  String.list_ascii_of_string (strip_cr s) =
    List.filter (λ c, negb (Ascii.eqb c "013"%char)) (String.list_ascii_of_string s) ∧
  parse s = parse (strip_cr s).
Proof.
  split; [|unfold parse; by rewrite strip_cr_idempotent].
  induction s as [|c s IH]; [done|]. simpl.
  destruct (Ascii.eqb c "013"%char); simpl; by rewrite IH.
Qed.

(** C17: [parse] never panics: the parser's events never close a
    container that was not opened, so the loader's [expect] never fires,
    whatever the text. *)
Theorem parse_never_panics `{EventSource} (source : string) :
  ∃ r, parse source = Returned r.
Proof.
  unfold parse. pose proof (load_default_returns (strip_cr source)) as [[st w] Hl].
  destruct (scan (strip_cr source)) as [evs err] eqn:Hs. simpl in Hl.
  rewrite Hl. simpl. destruct err; eauto.
Qed.

(** C18: When the parser stops on a scan error, [parse] returns
    [InvalidConfiguration] with the message "could not parse yaml" and the
    parser's error text, and no loader. *)
Theorem parse_scan_error `{EventSource} (source e : string) :
  (scan (strip_cr source)).2 = Some e →
  ∃ w, parse source = Returned (inr (InvalidConfiguration "could not parse yaml" e), w).
Proof.
  intros He. unfold parse. pose proof (load_default_returns (strip_cr source)) as [[st w] Hl].
  destruct (scan (strip_cr source)) as [evs err] eqn:Hs. simpl in *. subst err.
  rewrite Hl. simpl. eauto.
Qed.



(** C19: End to end: when the parser delivers, without error, the events of
    a document whose tree [v] the builder can produce, [parse] returns a
    loader whose root is [v] and logs nothing. *)
Theorem parse_document `{EventSource} (source : string) (v : Value.t) :
  scan (strip_cr source) = (emit_document v, None) →
  canon None v → is_container v = true →
  ∃ anc, parse source = Returned (inl (mkMarkedYaml anc None [] (Some v)), []).
Proof.
  intros Hs Hc Hv.
  destruct (load_emit_document_from v MarkedYaml_default Hc Hv) as [anc Hl]; [done|done|].
  exists anc. unfold parse. rewrite Hs, Hl. done.
Qed.

(** ** Witnesses on a concrete event source *)

(** A parser that delivers the events of [sample_tree] for the text
    "ok", and otherwise stops at once with a scan error. *)
Definition sample_scan (s : string) : list (Event * Marker) * option string :=
  if String.eqb s "ok" then (emit_document sample_tree, None)
  else ([], Some "did not find expected node content").

Lemma sample_scan_balanced (s : string) : balanced_from 0 (sample_scan s).1 = true.
Proof. unfold sample_scan. by destruct (String.eqb s "ok"). Qed.

#[local] Instance sample_source : EventSource :=
  {| scan := sample_scan; scan_balanced := sample_scan_balanced |}.

Lemma parse_scan_error_witness :
  ∃ w, parse "a: [" = Returned (inr (InvalidConfiguration "could not parse yaml"
                                     "did not find expected node content"), w).
Proof. apply parse_scan_error. reflexivity. Defined.

Lemma parse_document_witness :
  ∃ anc, parse "ok" = Returned (inl (mkMarkedYaml anc None [] (Some sample_tree)), []).
Proof.
  apply parse_document; [reflexivity| |reflexivity].
  apply canon_Mapping. split; [done|]. split.
  - simpl. split; [reflexivity|done].
  - repeat constructor; simpl; eauto.
Defined.
