(* ===== verification/Telemetry.v ===== *)
(** * The Apollo telemetry configuration: plugins/telemetry/apollo.rs

    [Config] with its field defaults, [Default::default()], and the
    deserializer serde derives from the struct's attributes:
    [deny_unknown_fields], a missing [apollo_key] or [apollo_graph_ref]
    read from the environment, a missing header field given its fixed
    default, the header fields read with [deserialize_header_name].  The
    process environment is a map from variable names to values.  The JSON
    schema [derive(JsonSchema)] publishes for the block is [Config_schema],
    checked against the deserializer. *)

From Stdlib Require Import Ascii.
From S2P Require Import Prelude.

(** [url::Url], kept as its text. *)
Definition Url : Type := string.

(** [http::header::HeaderName], kept as its (lower-case) text. *)
Definition HeaderName : Type := string.

(** The environment [std::env::var] reads. *)
Definition Env : Type := gmap string string.

(** [struct Config]. *)
Record Config : Type := mkConfig {
  endpoint : option Url;
  apollo_key : option string;
  apollo_graph_ref : option string;
  client_name_header : HeaderName;
  client_version_header : HeaderName;
}.

Definition apollo_key_env_str : option string := Some "${APOLLO_KEY}".
Definition apollo_graph_ref_env_str : option string := Some "${APOLLO_GRAPH_REF}".

(** [std::env::var("APOLLO_KEY").ok()]. *)
Definition apollo_key_default (env : Env) : option string := env !! "APOLLO_KEY".

(** [std::env::var("APOLLO_GRAPH_REF").ok()]. *)
Definition apollo_graph_reference (env : Env) : option string := env !! "APOLLO_GRAPH_REF".

Definition client_name_header_default_str : string := "apollographql-client-name".
Definition client_name_header_default : HeaderName := client_name_header_default_str.
Definition client_version_header_default_str : string := "apollographql-client-version".
Definition client_version_header_default : HeaderName := client_version_header_default_str.

(** [impl Default for Config]. *)
Definition Config_default : Config :=
  mkConfig None None None client_name_header_default client_version_header_default.

(** ** Deserialization *)

(** The value of a field in the configuration file, as serde sees it. *)
Inductive Json : Type :=
| JNull
| JString (s : string)
| JOther.

(** A token character of RFC 7230, the characters [HeaderName] accepts. *)
Definition is_tchar (c : ascii) : bool :=
  let n := nat_of_ascii c in
  (48 <=? n) && (n <=? 57) || (65 <=? n) && (n <=? 90) || (97 <=? n) && (n <=? 122) ||
  existsb (Ascii.eqb c) ["!"; "#"; "$"; "%"; "&"; "'"; "*"; "+"; "-"; "."; "^"; "_"; "`"; "|"; "~"]%char.

Definition ascii_lower (c : ascii) : ascii :=
  let n := nat_of_ascii c in
  if (65 <=? n) && (n <=? 90) then ascii_of_nat (n + 32) else c.

Fixpoint string_lower (s : string) : string :=
  match s with
  | EmptyString => EmptyString
  | String c s' => String (ascii_lower c) (string_lower s')
  end.

Fixpoint all_tchar (s : string) : bool :=
  match s with
  | EmptyString => true
  | String c s' => is_tchar c && all_tchar s'
  end.

(** [deserialize_header_name]: a string, parsed with
    [HeaderName::try_from], which accepts a non-empty run of token
    characters and lower-cases it. *)
Definition deserialize_header_name (j : Json) : string + HeaderName :=
  match j with
  | JString s =>
      if negb (String.eqb s "") && all_tchar s then inr (string_lower s)
      else inl "invalid HTTP header name"
  | _ => inl "invalid type: expected a string"
  end.

(** An [Option<String>] (or [Option<Url>]) field: [null] is [None]. *)
Definition deserialize_option_string (j : Json) : string + option string :=
  match j with
  | JNull => inr None
  | JString s => inr (Some s)
  | JOther => inl "invalid type: expected a string"
  end.

(** The fields seen so far, as serde's generated visitor keeps them. *)
Record Fields : Type := mkFields {
  f_endpoint : option (option Url);
  f_apollo_key : option (option string);
  f_apollo_graph_ref : option (option string);
  f_client_name_header : option HeaderName;
  f_client_version_header : option HeaderName;
}.

Definition no_fields : Fields := mkFields None None None None None.

(** Visit one entry: an unknown name is refused ([deny_unknown_fields]), a
    name seen twice is refused, a value of the wrong form is refused. *)
Definition visit_field (fs : Fields) (e : string * Json) : string + Fields :=
  let '(k, j) := e in
  let dup := inl ("duplicate field `" +:+ k +:+ "`") in
  if String.eqb k "endpoint" then
    match f_endpoint fs with
    | Some _ => dup
    | None => v ← deserialize_option_string j;
              inr (mkFields (Some v) (f_apollo_key fs) (f_apollo_graph_ref fs)
                     (f_client_name_header fs) (f_client_version_header fs))
    end
  else if String.eqb k "apollo_key" then
    match f_apollo_key fs with
    | Some _ => dup
    | None => v ← deserialize_option_string j;
              inr (mkFields (f_endpoint fs) (Some v) (f_apollo_graph_ref fs)
                     (f_client_name_header fs) (f_client_version_header fs))
    end
  else if String.eqb k "apollo_graph_ref" then
    match f_apollo_graph_ref fs with
    | Some _ => dup
    | None => v ← deserialize_option_string j;
              inr (mkFields (f_endpoint fs) (f_apollo_key fs) (Some v)
                     (f_client_name_header fs) (f_client_version_header fs))
    end
  else if String.eqb k "client_name_header" then
    match f_client_name_header fs with
    | Some _ => dup
    | None => v ← deserialize_header_name j;
              inr (mkFields (f_endpoint fs) (f_apollo_key fs) (f_apollo_graph_ref fs)
                     (Some v) (f_client_version_header fs))
    end
  else if String.eqb k "client_version_header" then
    match f_client_version_header fs with
    | Some _ => dup
    | None => v ← deserialize_header_name j;
              inr (mkFields (f_endpoint fs) (f_apollo_key fs) (f_apollo_graph_ref fs)
                     (f_client_name_header fs) (Some v))
    end
  else inl ("unknown field `" +:+ k +:+ "`").

(** The visitor's loop over the map's entries, stopping at the first error. *)
Fixpoint visit_fields (fs : Fields) (entries : list (string * Json)) : string + Fields :=
  match entries with
  | [] => inr fs
  | e :: es => fs' ← visit_field fs e; visit_fields fs' es
  end.

(** [<Config as Deserialize>::deserialize] from a map of entries: visit
    them in order, then fill the missing fields with their [default]s
    ([Option<Url>] missing is [None]). *)
Definition deserialize_Config (env : Env) (entries : list (string * Json)) : string + Config :=
  fs ← visit_fields no_fields entries;
  inr (mkConfig (default None (f_endpoint fs))
                (default (apollo_key_default env) (f_apollo_key fs))
                (default (apollo_graph_reference env) (f_apollo_graph_ref fs))
                (default client_name_header_default (f_client_name_header fs))
                (default client_version_header_default (f_client_version_header fs))).

(** The field names serde generates for [Config]. *)
Definition FIELDS : list string :=
  ["endpoint"; "apollo_key"; "apollo_graph_ref"; "client_name_header";
   "client_version_header"].

(** Whether the visitor has already seen field [k]. *)
Definition field_set (fs : Fields) (k : string) : bool :=
  if String.eqb k "endpoint" then bool_decide (is_Some (f_endpoint fs))
  else if String.eqb k "apollo_key" then bool_decide (is_Some (f_apollo_key fs))
  else if String.eqb k "apollo_graph_ref" then bool_decide (is_Some (f_apollo_graph_ref fs))
  else if String.eqb k "client_name_header" then bool_decide (is_Some (f_client_name_header fs))
  else if String.eqb k "client_version_header" then
    bool_decide (is_Some (f_client_version_header fs))
  else false.

(** ** The JSON schema

    [#[derive(JsonSchema)]] with the [schemars] attributes: every field is
    a nullable string ([Option<Url>] a URI string, the other four [with =
    "Option<String>"]), none is required (each is an [Option] or has a
    [default]), the four attributed fields carry the [default] their
    attribute names, and [deny_unknown_fields] closes the object
    ([additionalProperties: false]). *)
Record SchemaProperty : Type := mkSchemaProperty {
  sp_name : string;
  sp_default : option Json;
}.

Definition Config_schema : list SchemaProperty :=
  [mkSchemaProperty "endpoint" None;
   mkSchemaProperty "apollo_key" (JString <$> apollo_key_env_str);
   mkSchemaProperty "apollo_graph_ref" (JString <$> apollo_graph_ref_env_str);
   mkSchemaProperty "client_name_header" (Some (JString client_name_header_default_str));
   mkSchemaProperty "client_version_header" (Some (JString client_version_header_default_str))].

(** The type [["string", "null"]] of every property. *)
Definition nullable_string (j : Json) : bool :=
  match j with JNull | JString _ => true | JOther => false end.

(** Validation of a block against the schema, as the configuration
    validator runs it: every entry names a property and has its type (the
    [uri] format of [endpoint] is not checked, as [Url] is kept as text). *)
Definition schema_validate (entries : list (string * Json)) : bool :=
  forallb (λ e, bool_decide (e.1 ∈ sp_name <$> Config_schema) && nullable_string e.2) entries.

(** The default the schema documents for a field. *)
Definition schema_default (k : string) : option Json :=
  p ← head (filter (λ p, sp_name p = k) Config_schema); sp_default p.

(** The invariant of [HeaderName]: a non-empty run of token characters,
    in lower case. *)
Definition valid_header_name (h : HeaderName) : bool :=
  negb (String.eqb h "") && all_tchar h && String.eqb (string_lower h) h.

(** The header fields the visitor has read are valid [HeaderName]s. *)
Definition headers_valid (fs : Fields) : bool :=
  from_option valid_header_name true (f_client_name_header fs) &&
  from_option valid_header_name true (f_client_version_header fs).

(** ** Lemmas *)

Lemma visit_fields_app (fs : Fields) (l1 l2 : list (string * Json)) :
  visit_fields fs (l1 ++ l2) = fs1 ← visit_fields fs l1; visit_fields fs1 l2.
Proof.
  revert fs. induction l1 as [|e l1 IH]; intros fs; [done|]. simpl.
  destruct (visit_field fs e); simpl; [done|]. apply IH.
Qed.

(** An entry refused whatever was seen before it makes the whole map
    refused. *)
Lemma visit_fields_refused (fs : Fields) (l1 l2 : list (string * Json)) (e : string * Json) :
  (∀ fs', ∃ msg, visit_field fs' e = inl msg) →
  ∃ msg, visit_fields fs (l1 ++ e :: l2) = inl msg.
Proof.
  intros He. rewrite visit_fields_app.
  destruct (visit_fields fs l1) as [msg|fs1]; simpl; [eauto|].
  destruct (He fs1) as [msg Hm]. rewrite Hm. simpl. eauto.
Qed.

Ltac string_cases :=
  repeat match goal with
  | |- context [String.eqb ?a ?b] => destruct (String.eqb_spec a b); subst
  end.

(** Once [apollo_key] has a value, later entries keep it. *)
Lemma visit_field_keeps_apollo_key (fs fs' : Fields) (e : string * Json) (v : option string) :
  visit_field fs e = inr fs' → f_apollo_key fs = Some v → f_apollo_key fs' = Some v.
Proof.
  destruct e as [k j]. unfold visit_field, deserialize_option_string,
    deserialize_header_name. intros He Hv. rewrite Hv in He.
  repeat (case_match; simplify_eq/=; try done).
Qed.

(** A property of the visitor's state that every successful visit keeps
    holds at the end of a successful run. *)
Lemma visit_fields_preserve (P : Fields → Prop) (fs fs' : Fields) (l : list (string * Json)) :
  (∀ fs1 fs2 e, visit_field fs1 e = inr fs2 → P fs1 → P fs2) →
  visit_fields fs l = inr fs' → P fs → P fs'.
Proof.
  intros HP. revert fs. induction l as [|e l IH]; intros fs; simpl; [congruence|].
  destruct (visit_field fs e) as [|fs1] eqn:He; simpl; [discriminate|].
  intros Hl Hfs. eapply IH; [exact Hl|]. by eapply HP.
Qed.

(** A property every successfully visited entry has holds of all the
    entries of a successful run. *)
Lemma visit_fields_entries (Q : string * Json → Prop) (fs fs' : Fields) (l : list (string * Json)) :
  (∀ fs1 fs2 e, visit_field fs1 e = inr fs2 → Q e) →
  visit_fields fs l = inr fs' → Forall Q l.
Proof.
  intros HQ. revert fs. induction l as [|e l IH]; intros fs; simpl; [by constructor|].
  destruct (visit_field fs e) as [|fs1] eqn:He; simpl; [discriminate|].
  intros Hl. constructor; [by eapply HQ|]. by eapply IH.
Qed.

Lemma visit_fields_keeps_apollo_key (fs fs' : Fields) (l : list (string * Json))
    (v : option string) :
  visit_fields fs l = inr fs' → f_apollo_key fs = Some v → f_apollo_key fs' = Some v.
Proof.
  apply (visit_fields_preserve (λ fs, f_apollo_key fs = Some v)).
  intros ???. by apply visit_field_keeps_apollo_key.
Qed.

Ltac visit_cases :=
  unfold visit_field, field_set, deserialize_option_string, deserialize_header_name in *;
  string_cases; repeat (case_match; simplify_eq/=; try done);
  rewrite ?bool_decide_eq_true in *; try congruence; eauto.

(** A field visited successfully is set afterwards. *)
Lemma visit_field_sets (fs fs' : Fields) (k : string) (j : Json) :
  visit_field fs (k, j) = inr fs' → field_set fs' k = true.
Proof. intros H. visit_cases. Qed.

(** A field once set stays set. *)
Lemma visit_field_keeps_set (fs fs' : Fields) (e : string * Json) (k : string) :
  visit_field fs e = inr fs' → field_set fs k = true → field_set fs' k = true.
Proof. destruct e as [k' j]. intros H Hk. visit_cases. Qed.

Lemma visit_fields_keeps_set (fs fs' : Fields) (l : list (string * Json)) (k : string) :
  visit_fields fs l = inr fs' → field_set fs k = true → field_set fs' k = true.
Proof.
  apply (visit_fields_preserve (λ fs, field_set fs k = true)).
  intros ???. by apply visit_field_keeps_set.
Qed.

(** A field visited along a successful run is set at its end. *)
Lemma visit_fields_sets (fs fs' : Fields) (l1 l2 : list (string * Json)) (k : string) (j : Json) :
  visit_fields fs (l1 ++ (k, j) :: l2) = inr fs' → field_set fs' k = true.
Proof.
  rewrite visit_fields_app.
  destruct (visit_fields fs l1) as [|fs1]; cbn [mbind sum_bind visit_fields]; [discriminate|].
  destruct (visit_field fs1 (k, j)) as [|fs2] eqn:E; cbn [mbind sum_bind]; [discriminate|].
  intros Hl. eapply visit_fields_keeps_set; [exact Hl|]. by eapply visit_field_sets.
Qed.

(** A field already set is refused. *)
Lemma visit_field_dup (fs : Fields) (k : string) (j : Json) :
  field_set fs k = true → ∃ msg, visit_field fs (k, j) = inl msg.
Proof. intros Hk. visit_cases. Qed.

(** A field visited successfully names a property of the schema and has
    its type. *)
Lemma visit_field_schema (fs fs' : Fields) (e : string * Json) :
  visit_field fs e = inr fs' →
  bool_decide (e.1 ∈ sp_name <$> Config_schema) && nullable_string e.2 = true.
Proof.
  destruct e as [k j]. intros H. visit_cases;
    match goal with Hk : String.eqb _ _ = true |- _ => apply String.eqb_eq in Hk as -> end;
    by rewrite bool_decide_eq_true_2 by set_solver.
Qed.

Lemma ascii_lower_tchar (c : ascii) : is_tchar c = true → is_tchar (ascii_lower c) = true.
Proof. destruct c as [[] [] [] [] [] [] [] []]; vm_compute; congruence. Qed.

Lemma ascii_lower_idem (c : ascii) : ascii_lower (ascii_lower c) = ascii_lower c.
Proof. destruct c as [[] [] [] [] [] [] [] []]; vm_compute; reflexivity. Qed.

Lemma all_tchar_lower (s : string) : all_tchar s = true → all_tchar (string_lower s) = true.
Proof.
  induction s as [|c s IH]; simpl; [done|]. rewrite !andb_true_iff.
  intros [Hc Hs]. split; [by apply ascii_lower_tchar|by apply IH].
Qed.

Lemma string_lower_idem (s : string) : string_lower (string_lower s) = string_lower s.
Proof. induction s as [|c s IH]; simpl; [done|]. by rewrite ascii_lower_idem, IH. Qed.

(** [HeaderName::try_from] makes a valid name of every string it accepts. *)
Lemma string_lower_valid (s : string) :
  negb (String.eqb s "") && all_tchar s = true → valid_header_name (string_lower s) = true.
Proof.
  unfold valid_header_name. rewrite !andb_true_iff. intros [Hne Hs].
  rewrite string_lower_idem, String.eqb_refl, all_tchar_lower by done.
  by destruct s.
Qed.

Lemma visit_field_headers_valid (fs fs' : Fields) (e : string * Json) :
  visit_field fs e = inr fs' → headers_valid fs = true → headers_valid fs' = true.
Proof.
  destruct e as [k j]. unfold headers_valid. intros H Hv. visit_cases.
  all: rewrite string_lower_valid by done; rewrite ?andb_true_r;
    try apply andb_true_iff in Hv as [? ?]; done.
Qed.

(** ** Theorems *)

(** C20: Deserializing an empty [apollo] block reads [APOLLO_KEY] and
    [APOLLO_GRAPH_REF] from the environment and gives the fixed header
    names; it agrees with [Config::default()] exactly when neither variable
    is set, since [Default] does not read the environment. *)
Theorem deserialize_empty_reads_env (env : Env) :
  deserialize_Config env [] =
    inr (mkConfig None (env !! "APOLLO_KEY") (env !! "APOLLO_GRAPH_REF")
           "apollographql-client-name" "apollographql-client-version") ∧
  (deserialize_Config env [] = inr Config_default ↔
   env !! "APOLLO_KEY" = None ∧ env !! "APOLLO_GRAPH_REF" = None).
Proof.
  split; [reflexivity|]. change (deserialize_Config env []) with
    (inr (A := string) (mkConfig None (env !! "APOLLO_KEY") (env !! "APOLLO_GRAPH_REF")
           "apollographql-client-name" "apollographql-client-version")).
  split; [intros H; unfold Config_default in H; by injection H as -> ->|intros [-> ->]; reflexivity].
Qed.

(** C21: [deny_unknown_fields]: an entry whose name is not a field of
    [Config] makes deserialization fail, wherever it stands. *)
Theorem deserialize_unknown_field (env : Env) (l1 l2 : list (string * Json))
    (k : string) (j : Json) :
  k ∉ FIELDS → ∃ msg, deserialize_Config env (l1 ++ (k, j) :: l2) = inl msg.
Proof.
  intros Hk. unfold deserialize_Config.
  destruct (visit_fields_refused no_fields l1 l2 (k, j)) as [msg Hm].
  - intros fs'. unfold visit_field.
    string_cases; try (exfalso; apply Hk, list_elem_of_In; simpl; tauto). eauto.
  - rewrite Hm. simpl. eauto.
Qed.

Lemma deserialize_unknown_field_witness :
  ∃ msg, deserialize_Config ∅ ([] ++ ("apolo_key", JString "k") :: []) = inl msg.
Proof. apply deserialize_unknown_field. unfold FIELDS. set_solver. Defined.

(** C22: A value given in the file wins over the environment: when
    deserialization succeeds and the entries contain [apollo_key: j], the
    configuration's key is what [j] reads as, whatever [APOLLO_KEY] is: the
    string for a string, and [None] for an explicit [null] (serde's
    [default] is used only when the field is missing). *)
Theorem deserialize_explicit_apollo_key (env : Env) (entries : list (string * Json))
    (c : Config) (j : Json) (v : option string) :
  deserialize_Config env entries = inr c →
  ("apollo_key", j) ∈ entries → deserialize_option_string j = inr v → apollo_key c = v.
Proof.
  intros Hd [l1 [l2 ->]]%list_elem_of_split Hj. unfold deserialize_Config in Hd.
  rewrite visit_fields_app in Hd.
  destruct (visit_fields no_fields l1) as [|fs1]; simpl in Hd; [discriminate|].
  destruct (f_apollo_key fs1); simpl in Hd; [discriminate|]. rewrite Hj in Hd. simpl in Hd.
  match type of Hd with
  | (visit_fields ?fs2 l2 ≫= _) = _ =>
      destruct (visit_fields fs2 l2) as [|fs3] eqn:Hl; simpl in Hd; [discriminate|]
  end.
  injection Hd as <-. simpl.
  by rewrite (visit_fields_keeps_apollo_key _ _ _ v Hl).
Qed.

Lemma deserialize_explicit_apollo_key_witness :
  apollo_key (mkConfig None None None "apollographql-client-name"
                "apollographql-client-version") = None.
Proof.
  apply (deserialize_explicit_apollo_key {["APOLLO_KEY" := "env-key"]}
           [("apollo_key", JNull)] _ JNull); [reflexivity|by left|reflexivity].
Defined.

(** C25: A field given twice is refused: serde's generated visitor reports
    a duplicate field, wherever the two entries stand (an unknown name is
    refused at its first entry already). *)
Theorem deserialize_duplicate_field (env : Env) (l1 l2 l3 : list (string * Json))
    (k : string) (j1 j2 : Json) :
  ∃ msg, deserialize_Config env (l1 ++ (k, j1) :: l2 ++ (k, j2) :: l3) = inl msg.
Proof.
  unfold deserialize_Config.
  replace (l1 ++ (k, j1) :: l2 ++ (k, j2) :: l3) with
    ((l1 ++ (k, j1) :: l2) ++ (k, j2) :: l3) by (by rewrite <- app_assoc).
  rewrite visit_fields_app.
  destruct (visit_fields no_fields (l1 ++ (k, j1) :: l2)) as [msg|fs] eqn:E;
    cbn [mbind sum_bind visit_fields]; [eauto|].
  destruct (visit_field_dup fs k j2) as [msg Hm]; [by eapply visit_fields_sets|].
  rewrite Hm. simpl. eauto.
Qed.


(** C27: The schema admits every block the deserializer accepts: when
    [deserialize_Config] succeeds, every entry names a property of
    [Config_schema] and has its type, so validating against the schema
    never rejects a block serde would load. *)
Theorem deserialize_schema_valid (env : Env) (entries : list (string * Json)) (c : Config) :
  deserialize_Config env entries = inr c → schema_validate entries = true.
Proof.
  unfold deserialize_Config, schema_validate.
  destruct (visit_fields no_fields entries) as [|fs] eqn:E; simpl; [discriminate|]. intros _.
  apply forallb_forall. intros e He%list_elem_of_In. revert e He. apply Forall_forall.
  eapply visit_fields_entries; [|exact E]. apply visit_field_schema.
Qed.

Lemma deserialize_schema_valid_witness :
  deserialize_Config ∅ [("apollo_key", JString "service:key"); ("client_name_header", JString "X-Client")] =
    inr (mkConfig None (Some "service:key") None "x-client" "apollographql-client-version") ∧
  schema_validate [("apollo_key", JString "service:key"); ("client_name_header", JString "X-Client")] = true.
Proof.
  split; [reflexivity|].
  apply (deserialize_schema_valid ∅ _ (mkConfig None (Some "service:key") None "x-client"
                                         "apollographql-client-version")).
  reflexivity.
Defined.

(** The schema and the deserializer disagree on what a header field
    may hold and on what a documented default means: [null] for
    [client_name_header] or [client_version_header] passes the schema (the
    attribute declares [Option<String>]) but [deserialize_header_name]
    refuses it; the schema's header defaults deserialize to the serde
    defaults, while writing out the schema's default of [apollo_key] or
    [apollo_graph_ref] gives the placeholder text itself, not the
    environment's value a missing field gets. *)
Lemma schema_deserializer_divergence (env : Env) :
  schema_validate [("client_name_header", JNull); ("client_version_header", JNull)] = true ∧
  (∃ msg, deserialize_Config env [("client_name_header", JNull)] = inl msg) ∧
  (∃ msg, deserialize_Config env [("client_version_header", JNull)] = inl msg) ∧
  (λ j, deserialize_Config env [("client_name_header", j)]) <$> schema_default "client_name_header" =
    Some (deserialize_Config env []) ∧
  (λ j, deserialize_Config env [("client_version_header", j)]) <$> schema_default "client_version_header" =
    Some (deserialize_Config env []) ∧
  schema_default "apollo_key" = Some (JString "${APOLLO_KEY}") ∧
  schema_default "apollo_graph_ref" = Some (JString "${APOLLO_GRAPH_REF}") ∧
  deserialize_Config env [("apollo_key", JString "${APOLLO_KEY}");
                          ("apollo_graph_ref", JString "${APOLLO_GRAPH_REF}")] =
    inr (mkConfig None (Some "${APOLLO_KEY}") (Some "${APOLLO_GRAPH_REF}")
           client_name_header_default client_version_header_default).
Proof.
  split; [reflexivity|]. split; [eexists; reflexivity|]. split; [eexists; reflexivity|].
  done.
Qed.

(** C28: Every configuration the deserializer produces holds valid
    [HeaderName]s: both header fields are non-empty runs of token
    characters in lower case, whether read from the block or defaulted. *)
Theorem deserialize_headers_valid (env : Env) (entries : list (string * Json)) (c : Config) :
  deserialize_Config env entries = inr c →
  valid_header_name (client_name_header c) = true ∧
  valid_header_name (client_version_header c) = true.
Proof.
  unfold deserialize_Config.
  destruct (visit_fields no_fields entries) as [|fs] eqn:E; simpl; [discriminate|].
  intros [= <-]. simpl.
  assert (headers_valid fs = true) as Hv.
  { eapply (visit_fields_preserve (λ fs, headers_valid fs = true)); [|exact E|done].
    apply visit_field_headers_valid. }
  unfold headers_valid in Hv. apply andb_true_iff in Hv as [H1 H2].
  by destruct (f_client_name_header fs), (f_client_version_header fs).
Qed.

Lemma deserialize_headers_valid_witness :
  valid_header_name "x-client" = true ∧ valid_header_name "apollographql-client-version" = true.
Proof.
  apply (deserialize_headers_valid ∅ [("client_name_header", JString "X-Client")]
           (mkConfig None None None "x-client" "apollographql-client-version")).
  reflexivity.
Defined.
