(* ===== verification/Canned.v ===== *)
(** * Canned subgraph fixtures: apollo-router-core/src/plugin/utils/test/mock/canned.rs

    The three functions [accounts_subgraph], [reviews_subgraph] and
    [products_subgraph] each build a [MockSubgraph] from a literal list of
    (request, response) pairs written with [serde_json::json!].  Here a JSON
    literal is a [SerdeJson.Value]; its objects are association lists in
    the order of the source (every object of the fixtures has distinct
    keys, so the map type [serde_json::Map] stands behind them does not
    matter).  [serde_json::from_value] into the router's [Request] and
    [Response] is kept as the JSON itself, and the [HashMap] the pairs are
    collected into is [IndexMap] under equality ([IndexMap.from_iter]),
    whose lookups are those of a [HashMap].

    The fixtures are static data: the lemmas only check that collecting
    each literal into its map loses no pair; no property of the program is
    claimed here. *)

From S2P Require Import Prelude IndexMap.

Module SerdeJson.

Local Unset Elimination Schemes.

(** [serde_json::Value]; the fixtures only hold non-negative integers. *)
Inductive Value : Type :=
| Null
| Bool (b : bool)
| Number (n : N)
| String (s : string)
| Array (l : list Value)
| Object (m : list (string * Value)).

#[global] Instance Value_inhabited : Inhabited Value := populate Null.

#[global] Instance Value_eq_dec : EqDecision Value.
Proof.
  refine (
   fix go v1 v2 := let _ : EqDecision Value := @go in
   match v1, v2 with
   | Null, Null => left _
   | Bool b1, Bool b2 => cast_if (decide (b1 = b2))
   | Number n1, Number n2 => cast_if (decide (n1 = n2))
   | String s1, String s2 => cast_if (decide (s1 = s2))
   | Array l1, Array l2 => cast_if (decide (l1 = l2))
   | Object m1, Object m2 => cast_if (decide (m1 = m2))
   | _, _ => right _
   end); abstract congruence.
Defined.

(** The field [k] of an object ([Value::get] with a string index). *)
Fixpoint assoc (k : string) (m : list (string * Value)) : option Value :=
  match m with
  | [] => None
  | (k', v) :: m' => if String.eqb k' k then Some v else assoc k m'
  end.

Definition field (k : string) (v : Value) : option Value :=
  match v with Object m => assoc k m | _ => None end.

Definition as_array (v : Value) : option (list Value) :=
  match v with Array l => Some l | _ => None end.

End SerdeJson.

Import SerdeJson.

(** ** The fixtures *)

(** A [MockSubgraph]: its requests and responses collected into a map. *)
Definition MockSubgraph : Type := IndexMap.t (K:=Value) (V:=Value).

#[local] Instance Value_equiv : Equiv Value := eq.
#[local] Instance Value_equiv_equivalence : Equivalence (≡@{Value}).
Proof. apply eq_equivalence. Qed.
#[local] Instance Value_equiv_dec : RelDecision (≡@{Value}) := λ v1 v2, decide (v1 = v2).

(** [MockSubgraph::new(mocks)], with the [.collect()] that builds [mocks]. *)
Definition MockSubgraph_new (mocks : list (Value * Value)) : MockSubgraph :=
  IndexMap.from_iter mocks.

(** The response a mock gives to a request; [None] is the mock's
    "couldn't find mock for query" error. *)
Definition mock_response (req : Value) (s : MockSubgraph) : option Value :=
  IndexMap.get req s.

(** The literal of [accounts_subgraph]. *)
Definition account_mocks : list (Value * Value) :=
  [(Object [
      ("query", String "query TopProducts__accounts__3($representations:[_Any!]!){_entities(representations:$representations){...on User{name}}}");
      ("operationName", String "TopProducts__accounts__3");
      ("variables", Object [
         ("representations", Array [
            Object [("__typename", String "User"); ("id", String "1")];
            Object [("__typename", String "User"); ("id", String "2")];
            Object [("__typename", String "User"); ("id", String "1")]])])],
    Object [
      ("data", Object [
         ("_entities", Array [
            Object [("name", String "Ada Lovelace")];
            Object [("name", String "Alan Turing")];
            Object [("name", String "Ada Lovelace")]])])])].

Definition accounts_subgraph : MockSubgraph := MockSubgraph_new account_mocks.

(** The literal of [reviews_subgraph]. *)
Definition review_mocks : list (Value * Value) :=
  [(Object [
      ("query", String "query TopProducts__reviews__1($representations:[_Any!]!){_entities(representations:$representations){...on Product{reviews{id product{__typename upc}author{__typename id}}}}}");
      ("operationName", String "TopProducts__reviews__1");
      ("variables", Object [
         ("representations", Array [
            Object [("__typename", String "Product"); ("upc", String "1")];
            Object [("__typename", String "Product"); ("upc", String "2")]])])],
    Object [
      ("data", Object [
         ("_entities", Array [
            Object [
              ("reviews", Array [
                 Object [
                   ("id", String "1");
                   ("product", Object [("__typename", String "Product"); ("upc", String "1")]);
                   ("author", Object [("__typename", String "User"); ("id", String "1")])];
                 Object [
                   ("id", String "4");
                   ("product", Object [("__typename", String "Product"); ("upc", String "1")]);
                   ("author", Object [("__typename", String "User"); ("id", String "2")])]])];
            Object [
              ("reviews", Array [
                 Object [
                   ("id", String "2");
                   ("product", Object [("__typename", String "Product"); ("upc", String "2")]);
                   ("author", Object [("__typename", String "User"); ("id", String "1")])]])]])])])].

Definition reviews_subgraph : MockSubgraph := MockSubgraph_new review_mocks.

(** The literal of [products_subgraph] ([2u8] is the number 2). *)
Definition product_mocks : list (Value * Value) :=
  [(Object [
      ("query", String "query TopProducts__products__0($first:Int){topProducts(first:$first){__typename upc name}}");
      ("operationName", String "TopProducts__products__0");
      ("variables", Object [("first", Number 2)])],
    Object [
      ("data", Object [
         ("topProducts", Array [
            Object [("__typename", String "Product"); ("upc", String "1"); ("name", String "Table")];
            Object [("__typename", String "Product"); ("upc", String "2"); ("name", String "Couch")]])])]);
   (Object [
      ("query", String "query TopProducts__products__2($representations:[_Any!]!){_entities(representations:$representations){...on Product{name}}}");
      ("operationName", String "TopProducts__products__2");
      ("variables", Object [
         ("representations", Array [
            Object [("__typename", String "Product"); ("upc", String "1")];
            Object [("__typename", String "Product"); ("upc", String "1")];
            Object [("__typename", String "Product"); ("upc", String "2")]])])],
    Object [
      ("data", Object [
         ("_entities", Array [
            Object [("name", String "Table")];
            Object [("name", String "Table")];
            Object [("name", String "Couch")]])])])].

Definition products_subgraph : MockSubgraph := MockSubgraph_new product_mocks.

(** ** Lemmas *)

(** Under equality, unique keys are distinct requests. *)
Lemma mock_response_new (mocks : list (Value * Value)) (req resp : Value) :
  IndexMap.keys_unique mocks →
  mock_response req (MockSubgraph_new mocks) = Some resp ↔ (req, resp) ∈ mocks.
Proof.
  intros Hu. unfold mock_response, MockSubgraph_new.
  rewrite IndexMap.get_from_iter, IndexMap.get_Some_elem_of by done.
  split; [intros (? & <- & ?)|exists req]; done.
Qed.

Lemma fixtures_keys_unique :
  IndexMap.keys_unique account_mocks ∧ IndexMap.keys_unique review_mocks ∧
  IndexMap.keys_unique product_mocks.
Proof. vm_compute. tauto. Qed.

(** Each mock answers exactly its canned pairs: a request gets a
    response from [accounts_subgraph], [reviews_subgraph] or
    [products_subgraph] exactly when that (request, response) pair is
    written in the fixture, so collecting the pairs loses none of them. *)
Lemma canned_mocks_answer (req resp : Value) :
  (mock_response req accounts_subgraph = Some resp ↔ (req, resp) ∈ account_mocks) ∧
  (mock_response req reviews_subgraph = Some resp ↔ (req, resp) ∈ review_mocks) ∧
  (mock_response req products_subgraph = Some resp ↔ (req, resp) ∈ product_mocks).
Proof.
  destruct fixtures_keys_unique as (Ha & Hr & Hp).
  split; [|split]; by apply mock_response_new.
Qed.

